(** * Layer-2 announcer (internal/layer2/announcer.go)

    A shallow embedding of the announcement registry, the public facade
    ([SetBalancer], [DeleteBalancer], [AnnounceName]), the interface tracker
    ([updateInterfaces]) and the re-announce scheduler ([spamLoop]) of the
    layer-2 announcer, together with the properties of the specification
    that concern them. *)

From Stdlib Require Import ZArith Lia.
From Stdlib Require Import Strings.Byte Strings.Ascii Strings.String.
From stdpp Require Import base option list strings gmap fin_maps.

Local Open Scope Z_scope.

(** ** Go's [net.IP]

    [net.IP] is a byte slice; the nil slice is the empty list.  The functions
    below follow the [net] package of the Go standard library, which
    announcer.go calls on every address it handles. *)

#[global] Instance byte_eq_dec : EqDecision byte.
Proof. intros x y. destruct (Byte.eqb x y) eqn:E.
  - left. apply Byte.byte_dec_bl, E.
  - right. intros ->. rewrite (Byte.byte_dec_lb eq_refl) in E. discriminate E.
Defined.

Module net.

Definition IP : Type := list byte.

Definition IPv4len : nat := 4.
Definition IPv6len : nat := 16.

(** [p[i]] as an unsigned number (0 outside the slice, where Go would panic;
    every use below is guarded by a length test). *)
Definition at_ (p : list byte) (i : nat) : Z := Z.of_N (Byte.to_N (nth i p x00)).

Definition byte_of_Z (z : Z) : byte :=
  default x00 (Byte.of_N (Z.to_N (z mod 256))).

Definition v4InV6Prefix : list byte :=
  [x00; x00; x00; x00; x00; x00; x00; x00; x00; x00; xff; xff].

(** [net.IPv4(a, b, c, d)]: the 16-byte form of an IPv4 address. *)
Definition IPv4 (a b c d : byte) : IP := v4InV6Prefix ++ [a; b; c; d].

Definition isZeros (p : list byte) : bool := forallb (Byte.eqb x00) p.

(** [ip.To4()]: the 4-byte form, or nil ([None]) when ip is not an IPv4
    address. *)
Definition To4 (ip : IP) : option IP :=
  if bool_decide (length ip = IPv4len) then Some ip
  else if bool_decide (length ip = IPv6len)
          && isZeros (take 10 ip)
          && (at_ ip 10 =? 255) && (at_ ip 11 =? 255)
       then Some (drop 12 ip)
       else None.

(** [ip.Equal(x)]: an IPv4 address and the same address in 16-byte form are
    equal. *)
Definition Equal (ip x : IP) : bool :=
  if bool_decide (length ip = length x) then bool_decide (ip = x)
  else if bool_decide (length ip = IPv4len) && bool_decide (length x = IPv6len)
       then bool_decide (take 12 x = v4InV6Prefix) && bool_decide (ip = drop 12 x)
  else if bool_decide (length ip = IPv6len) && bool_decide (length x = IPv4len)
       then bool_decide (take 12 ip = v4InV6Prefix) && bool_decide (drop 12 ip = x)
  else false.

(** [ip.IsLinkLocalUnicast()]. *)
Definition IsLinkLocalUnicast (ip : IP) : bool :=
  match To4 ip with
  | Some ip4 => (at_ ip4 0 =? 169) && (at_ ip4 1 =? 254)
  | None => bool_decide (length ip = IPv6len)
            && (at_ ip 0 =? 254) && (Z.land (at_ ip 1) 192 =? 128)
  end.

(** *** Textual form: [ip.String()] *)

Definition hexDigit (v : Z) : ascii :=
  default "0"%char (String.get (Z.to_nat v) "0123456789abcdef").

Definition decDigit (v : Z) : ascii := ascii_of_N (Z.to_N (48 + v)).

Definition str1 (c : ascii) : string := String c EmptyString.

(** [ubtoa]: decimal form of a byte, without leading zeros. *)
Definition ubtoa (v : Z) : string :=
  if v <? 10 then str1 (decDigit v)
  else if v <? 100 then str1 (decDigit (v / 10)) +:+ str1 (decDigit (v mod 10))
  else str1 (decDigit (v / 100)) +:+ str1 (decDigit (v / 10 mod 10))
         +:+ str1 (decDigit (v mod 10)).

(** [hexString]: two lower-case hex digits per byte. *)
Definition hexString (b : list byte) : string :=
  foldr (λ c s, str1 (hexDigit (Z.shiftr (Z.of_N (Byte.to_N c)) 4))
                +:+ str1 (hexDigit (Z.land (Z.of_N (Byte.to_N c)) 15)) +:+ s)
        EmptyString b.

(** [appendHex(dst, i)]: hex form of i without leading zeros. *)
Definition appendHex (dst : string) (i : Z) : string :=
  if i =? 0 then dst +:+ "0"
  else foldl (λ d (j : Z),
                let v := Z.shiftr i (j * 4) in
                if v >? 0 then d +:+ str1 (hexDigit (Z.land v 15)) else d)
             dst [7; 6; 5; 4; 3; 2; 1; 0].

(** The 16-bit field that starts at byte i. *)
Definition field (p : IP) (i : nat) : Z :=
  Z.lor (Z.shiftl (at_ p i) 8) (at_ p (i + 1)).

(** Inner loop of the zero-run search:
    [for j < IPv6len && p[j] == 0 && p[j+1] == 0 { j += 2 }]. *)
Fixpoint zeroRunEnd (fuel : nat) (p : IP) (j : nat) : nat :=
  match fuel with
  | O => j
  | S fuel' =>
      if bool_decide (j < IPv6len)%nat && (at_ p j =? 0) && (at_ p (j + 1) =? 0)
      then zeroRunEnd fuel' p (j + 2)
      else j
  end.

(** Outer loop: the longest run of zero fields, as byte offsets [(e0, e1)],
    the first one on a tie; [(-1, -1)] when there is none. *)
Fixpoint longestZeroRun (fuel : nat) (p : IP) (i : nat) (e : Z * Z) : Z * Z :=
  match fuel with
  | O => e
  | S fuel' =>
      if bool_decide (i < IPv6len)%nat then
        let j := zeroRunEnd 8 p i in
        if bool_decide (i < j)%nat && (Z.of_nat j - Z.of_nat i >? e.2 - e.1)
        then longestZeroRun fuel' p (j + 2) (Z.of_nat i, Z.of_nat j)
        else longestZeroRun fuel' p (i + 2) e
      else e
  end.

(** Printing loop, with [::] in place of the run of zeros. *)
Fixpoint printFields (fuel : nat) (p : IP) (i : nat) (e : Z * Z) (b : string)
  : string :=
  match fuel with
  | O => b
  | S fuel' =>
      if bool_decide (i < IPv6len)%nat then
        if Z.of_nat i =? e.1 then
          let b := b +:+ "::" in
          let i := Z.to_nat e.2 in
          if bool_decide (IPv6len ≤ i)%nat then b
          else printFields fuel' p (i + 2) e (appendHex b (field p i))
        else
          let b := if bool_decide (0 < i)%nat then b +:+ ":" else b in
          printFields fuel' p (i + 2) e (appendHex b (field p i))
      else b
  end.

(** *** Parsing: [net.ParseIP] *)

Definition big : Z := 16777215.

Definition code (c : ascii) : Z := Z.of_N (N_of_ascii c).

(** [s[n:]]. *)
Fixpoint skip (n : nat) (s : string) : string :=
  match n, s with
  | S n', String _ s' => skip n' s'
  | _, _ => s
  end.

(** [dtoi]: the decimal number at the start of s, the number of characters it
    takes, and whether there is one. *)
Fixpoint dtoiLoop (s : string) (n : Z) (i : nat) : Z * nat * bool :=
  match s with
  | String c s' =>
      if (48 <=? code c) && (code c <=? 57) then
        let n := n * 10 + (code c - 48) in
        if big <=? n then (big, i, false) else dtoiLoop s' n (S i)
      else if bool_decide (i = 0%nat) then (0, 0%nat, false) else (n, i, true)
  | EmptyString =>
      if bool_decide (i = 0%nat) then (0, 0%nat, false) else (n, i, true)
  end.

Definition dtoi (s : string) : Z * nat * bool := dtoiLoop s 0 0%nat.

(** [xtoi]: the same for a hexadecimal number. *)
Definition hexValue (c : ascii) : option Z :=
  if (48 <=? code c) && (code c <=? 57) then Some (code c - 48)
  else if (97 <=? code c) && (code c <=? 102) then Some (code c - 97 + 10)
  else if (65 <=? code c) && (code c <=? 70) then Some (code c - 65 + 10)
  else None.

Fixpoint xtoiLoop (s : string) (n : Z) (i : nat) : Z * nat * bool :=
  match s with
  | String c s' =>
      match hexValue c with
      | Some d =>
          let n := n * 16 + d in
          if big <=? n then (0, i, false) else xtoiLoop s' n (S i)
      | None => if bool_decide (i = 0%nat) then (0, i, false) else (n, i, true)
      end
  | EmptyString =>
      if bool_decide (i = 0%nat) then (0, i, false) else (n, i, true)
  end.

Definition xtoi (s : string) : Z * nat * bool := xtoiLoop s 0 0%nat.

(** [parseIPv4]: [d.d.d.d]; [None] is Go's nil.  The loop reads the fields
    that remain after the i first ones, collected in p. *)
Fixpoint parseIPv4Loop (fields : nat) (i : nat) (s : string) (p : list byte)
  : option (list byte * string) :=
  match fields with
  | O => Some (p, s)
  | S fields' =>
      match s with
      | EmptyString => None (* missing octets *)
      | String c0 s' =>
          let after_dot :=
            if bool_decide (0 < i)%nat
            then (if bool_decide (c0 = "."%char) then Some s' else None)
            else Some s in
          match after_dot with
          | None => None
          | Some s =>
              let '(n, c, ok) := dtoi s in
              if negb ok || (255 <? n) then None
              else if bool_decide (1 < c)%nat
                      && bool_decide (String.get 0 s = Some "0"%char)
              then None (* leading zeroes *)
              else parseIPv4Loop fields' (S i) (skip c s) (p ++ [byte_of_Z n])
          end
      end
  end.

Definition parseIPv4 (s : string) : option IP :=
  match parseIPv4Loop 4 0 s [] with
  | Some ([a; b; c; d], EmptyString) => Some (IPv4 a b c d)
  | _ => None
  end.

(** State of the main loop of [parseIPv6]: the bytes written so far (ip[0:i]),
    the rest of the string and the position of the ellipsis. *)
Fixpoint parseIPv6Loop (fuel : nat) (ip : list byte) (s : string)
    (ellipsis : option nat) : option (list byte * string * option nat) :=
  match fuel with
  | O => Some (ip, s, ellipsis)
  | S fuel' =>
      if bool_decide (length ip < IPv6len)%nat then
        let '(n, c, ok) := xtoi s in
        if negb ok || (65535 <? n) then None
        else if bool_decide (String.get c s = Some "."%char) then
          (* trailing IPv4 *)
          if bool_decide (ellipsis = None)
             && negb (bool_decide (length ip = IPv6len - IPv4len)%nat)
          then None
          else if bool_decide (IPv6len < length ip + IPv4len)%nat then None
          else match parseIPv4 s with
               | None => None
               | Some ip4 => Some (ip ++ drop 12 ip4, EmptyString, ellipsis)
               end
        else
          let ip := ip ++ [byte_of_Z (Z.shiftr n 8); byte_of_Z n] in
          match skip c s with
          | EmptyString => Some (ip, EmptyString, ellipsis)
          | String c1 s1 =>
              if negb (bool_decide (c1 = ":"%char))
                 || bool_decide (s1 = EmptyString)
              then None
              else match s1 with
                   | String ":" s2 =>
                       match ellipsis with
                       | Some _ => None (* already have one *)
                       | None =>
                           if bool_decide (s2 = EmptyString)
                           then Some (ip, EmptyString, Some (length ip))
                           else parseIPv6Loop fuel' ip s2 (Some (length ip))
                       end
                   | _ => parseIPv6Loop fuel' ip s1 ellipsis
                   end
          end
      else Some (ip, s, ellipsis)
  end.

Definition parseIPv6 (s : string) : option IP :=
  let '(s, ellipsis, only) :=
    match s with
    | String ":" (String ":" s') =>
        (s', Some 0%nat, bool_decide (s' = EmptyString))
    | _ => (s, None, false)
    end in
  if only then Some (replicate IPv6len x00)
  else match parseIPv6Loop 8 [] s ellipsis with
  | Some (ip, EmptyString, ellipsis) =>
      if bool_decide (length ip < IPv6len)%nat then
        match ellipsis with
        | None => None
        | Some e =>
            (* expand the ellipsis *)
            Some (take e ip ++ replicate (IPv6len - length ip) x00 ++ drop e ip)
        end
      else match ellipsis with
           | Some _ => None (* the ellipsis must stand for a zero group *)
           | None => Some ip
           end
  | _ => None
  end.

(** The first of ['.'] and [':'] in s decides which parser runs. *)
Fixpoint firstSep (s : string) : option ascii :=
  match s with
  | EmptyString => None
  | String c s' =>
      if bool_decide (c = "."%char) || bool_decide (c = ":"%char) then Some c
      else firstSep s'
  end.

(** [net.ParseIP(s)]; the nil result is the empty list. *)
Definition ParseIP (s : string) : IP :=
  match firstSep s with
  | Some "."%char => default [] (parseIPv4 s)
  | Some _ => default [] (parseIPv6 s)
  | None => []
  end.

(** [ip.String()], defined last: inside this module its name hides the
    constructor of strings. *)
Definition String (ip : IP) : string :=
  if bool_decide (length ip = 0%nat) then "<nil>"
  else match To4 ip with
  | Some p4 =>
      ubtoa (at_ p4 0) +:+ "." +:+ ubtoa (at_ p4 1) +:+ "."
        +:+ ubtoa (at_ p4 2) +:+ "." +:+ ubtoa (at_ p4 3)
  | None =>
      if bool_decide (length ip ≠ IPv6len) then "?" +:+ hexString ip
      else
        let e := longestZeroRun 8 ip 0 (-1, -1) in
        (* The symbol [::] must not shorten just one 16-bit zero field. *)
        let e := if e.2 - e.1 <=? 2 then (-1, -1) else e in
        printFields 8 ip 0 e EmptyString
  end.

End net.


(** ** Responders *)

(** Modelled from the spec: the methods of [arpResponder] that the announcer
    calls.  The type is declared in a file of the package that is not among
    the sources at hand.  [Gratuitous(ip)] emits one gratuitous ARP frame for
    ip on the interface of the responder. *)
Inductive arpCall : Type :=
  | ArpGratuitous (ip : net.IP).

(** Modelled from the spec: the methods of [ndpResponder] that the announcer
    calls, declared outside of the sources at hand as well.  [Watch(ip)]
    joins and [Unwatch(ip)] leaves the solicited-node multicast group of ip
    on the interface, [Gratuitous(ip)] emits one unsolicited neighbor
    advertisement for ip. *)
Inductive ndpCall : Type :=
  | NdpWatch (ip : net.IP)
  | NdpUnwatch (ip : net.IP)
  | NdpGratuitous (ip : net.IP).

(** Modelled from the spec: an [arpResponder], of which the announcer knows
    the interface and on which it calls methods; it is represented by the
    name of the interface and the calls made so far, oldest first.  The
    errors the methods return are only logged by the announcer. *)
Record arpResponder : Type := mkArp {
  arpInterface : string;
  arpCalls : list arpCall
}.

(** Modelled from the spec: an [ndpResponder], represented in the same
    way. *)
Record ndpResponder : Type := mkNdp {
  ndpInterface : string;
  ndpCalls : list ndpCall
}.

#[global] Instance arpCall_eq_dec : EqDecision arpCall.
Proof. solve_decision. Defined.
#[global] Instance ndpCall_eq_dec : EqDecision ndpCall.
Proof. solve_decision. Defined.
#[global] Instance arpResponder_eq_dec : EqDecision arpResponder.
Proof. solve_decision. Defined.
#[global] Instance ndpResponder_eq_dec : EqDecision ndpResponder.
Proof. solve_decision. Defined.

(** One more call on a responder. *)
Definition arpDo (c : arpCall) (r : arpResponder) : arpResponder :=
  mkArp (arpInterface r) (arpCalls r ++ [c]).

Definition ndpDo (c : ndpCall) (r : ndpResponder) : ndpResponder :=
  mkNdp (ndpInterface r) (ndpCalls r ++ [c]).

(** Modelled from the spec: [newARPResponder], when it succeeds, opens a
    socket on the interface and returns a responder on which nothing has been
    called yet.  It receives the logger, the interface and [shouldAnnounce],
    which answers for one address at a time and gives no access to the
    addresses of the registry. *)
Definition newARPResponder (ifname : string) : arpResponder := mkArp ifname [].

(** Modelled from the spec: [newNDPResponder], with the same arguments; the
    new responder has joined no multicast group. *)
Definition newNDPResponder (ifname : string) : ndpResponder := mkNdp ifname [].

(** ** The [Announce] structure

    The logger is left out, and the mutex too: every method below runs with
    the lock held from its first to its last step, so that each is one atomic
    transition of the state.  [spamCh] is the queue of the channel, oldest
    first. *)

Record Announce : Type := mkAnnounce {
  arps : gmap Z arpResponder;
  ndps : gmap Z ndpResponder;
  ips : gmap string (list net.IP);   (* svcName -> IPs *)
  ipRefcnt : gmap string Z;          (* ip.String() -> number of uses *)
  spamCh : list net.IP
}.

(** Go's [int] on the 64-bit platforms the announcer runs on. *)
Definition min_int : Z := - 2 ^ 63.
Definition max_int : Z := 2 ^ 63 - 1.
Definition wrap_int (z : Z) : Z := (z + 2 ^ 63) mod 2 ^ 64 - 2 ^ 63.

(** [a.ipRefcnt[key]] and [a.ips[name]]: a missing key reads as the zero
    value. *)
Definition refcnt_of (cnt : gmap string Z) (key : string) : Z :=
  default 0 (cnt !! key).

Definition refcnt (a : Announce) (key : string) : Z :=
  refcnt_of (ipRefcnt a) key.

Definition ips_of (a : Announce) (name : string) : list net.IP :=
  default [] (ips a !! name).

(** [New], without the two background loops it starts. *)
Definition New : Announce := mkAnnounce ∅ ∅ ∅ ∅ [].

(** The reasons why a packet is not answered. *)
Inductive dropReason : Type :=
  | dropReasonNone
  | dropReasonClosed
  | dropReasonError
  | dropReasonARPReply
  | dropReasonMessageType
  | dropReasonNoSourceLL
  | dropReasonEthernetDestination
  | dropReasonAnnounceIP.

#[global] Instance dropReason_eq_dec : EqDecision dropReason.
Proof. solve_decision. Defined.

(** [a.gratuitous(ip)]. *)
Definition gratuitous (ip : net.IP) (a : Announce) : Announce :=
  if refcnt a (net.String ip) <=? 0 then
    (* We've lost control of the IP. *)
    a
  else match net.To4 ip with
       | Some _ =>
           mkAnnounce (arpDo (ArpGratuitous ip) <$> arps a) (ndps a)
                      (ips a) (ipRefcnt a) (spamCh a)
       | None =>
           mkAnnounce (arps a) (ndpDo (NdpGratuitous ip) <$> ndps a)
                      (ips a) (ipRefcnt a) (spamCh a)
       end.

(** [a.shouldAnnounce(ip)]: the two nested loops return at the first stored
    address equal to ip, whatever the order in which the map is visited. *)
Definition shouldAnnounce (ip : net.IP) (a : Announce) : dropReason :=
  if existsb (λ entry : string * list net.IP,
                existsb (λ i, net.Equal i ip) entry.2)
             (map_to_list (ips a))
  then dropReasonNone
  else dropReasonAnnounceIP.

(** [a.SetBalancer(name, ip)].  The loop that opens the function compares
    each stored address with itself and then continues: it changes nothing
    and every call goes on to the append.  The deferred [doSpam] runs last,
    once the lock is released; that the send waits while the channel is full
    is not represented. *)
Definition SetBalancer (name : string) (ip : net.IP) (a : Announce) : Announce :=
  let ips' := <[name := ips_of a name ++ [ip]]> (ips a) in
  let key := net.String ip in
  let cnt' := <[key := wrap_int (refcnt a key + 1)]> (ipRefcnt a) in
  let ndps' :=
    if refcnt_of cnt' key >? 1 then
      (* Multiple services are using this IP. *)
      ndps a
    else ndpDo (NdpWatch ip) <$> ndps a in
  mkAnnounce (arps a) ndps' ips' cnt' (spamCh a ++ [ip]).

(** The loop of [DeleteBalancer] over the addresses that were stored under
    the name; its [return] leaves the loop and the function. *)
Fixpoint deleteLoop (l : list net.IP) (a : Announce) : Announce :=
  match l with
  | [] => a
  | ip :: rest =>
      let key := net.String ip in
      let cnt' := <[key := wrap_int (refcnt a key - 1)]> (ipRefcnt a) in
      if refcnt_of cnt' key >? 0 then
        (* Another service is still using this IP, don't touch any more
           things. *)
        mkAnnounce (arps a) (ndps a) (ips a) cnt' (spamCh a)
      else
        deleteLoop rest
          (mkAnnounce (arps a) (ndpDo (NdpUnwatch ip) <$> ndps a)
                      (ips a) cnt' (spamCh a))
  end.

(** [a.DeleteBalancer(name)]. *)
Definition DeleteBalancer (name : string) (a : Announce) : Announce :=
  match ips a !! name with
  | None => a
  | Some l =>
      deleteLoop l
        (mkAnnounce (arps a) (ndps a) (delete name (ips a)) (ipRefcnt a)
                    (spamCh a))
  end.

(** [a.AnnounceName(name)]. *)
Definition AnnounceName (name : string) (a : Announce) : bool :=
  bool_decide (is_Some (ips a !! name)).

(** ** The interface tracker

    What one scan learns from the system about an interface: the
    [net.Interface] itself, the result of [ifi.Addrs()], whether
    [/sys/class/net/<name>/master] is found, the number read from
    [/sys/class/net/<name>/flags] when the file can be read, and whether a
    raw socket can be opened for a new responder. *)

Inductive Addr : Type :=
  | IPNet (ip : net.IP)     (* a [*net.IPNet] *)
  | OtherAddr.              (* any other [net.Addr] *)

Record Interface : Type := mkInterface {
  Index : Z;
  Name : string;
  Flags : Z;
  Addrs : option (list Addr);     (* [None]: [ifi.Addrs()] fails *)
  hasMaster : bool;
  sysFlags : option Z;            (* [None]: the flags file cannot be read *)
  arpOpens : bool;                (* [newARPResponder] succeeds *)
  ndpOpens : bool                 (* [newNDPResponder] succeeds *)
}.

Definition FlagUp : Z := 1.
Definition FlagBroadcast : Z := 2.

(** The loop body either goes on to the next interface with the two [keep]
    sets, or returns from [updateInterfaces]. *)
Inductive scan : Type :=
  | Continue (keepARP keepNDP : gset Z) (a : Announce)
  | Return (a : Announce).

(** The loop over the addresses of one interface. *)
Definition scanAddrs (ifi : Interface) (addrs : list Addr)
    (keepARP keepNDP : gset Z) : gset Z * gset Z :=
  foldl (λ (keep : gset Z * gset Z) (ad : Addr),
           match ad with
           | OtherAddr => keep
           | IPNet ip =>
               (if bool_decide (is_Some (net.To4 ip))
                   && negb (Z.land (Flags ifi) FlagBroadcast =? 0)
                then {[Index ifi]} ∪ keep.1 else keep.1,
                if net.IsLinkLocalUnicast ip
                then {[Index ifi]} ∪ keep.2 else keep.2)
           end)
        (keepARP, keepNDP) addrs.

(** One turn of the loop over the interfaces. *)
Definition scanInterface (ifi : Interface) (keepARP keepNDP : gset Z)
    (a : Announce) : scan :=
  match Addrs ifi with
  | None => Return a
  | Some addrs =>
      if Z.land (Flags ifi) FlagUp =? 0 then Continue keepARP keepNDP a
      else if hasMaster ifi then Continue keepARP keepNDP a
      else if match sysFlags ifi with
              | Some flags => negb (Z.land flags 128 =? 0)   (* NOARP *)
              | None => false
              end
      then Continue keepARP keepNDP a
      else
        let keep := scanAddrs ifi addrs keepARP keepNDP in
        let newARP := bool_decide (Index ifi ∈ keep.1)
                      && bool_decide (arps a !! Index ifi = None) in
        if newARP && negb (arpOpens ifi) then Return a
        else
          let a1 :=
            if newARP
            then mkAnnounce (<[Index ifi := newARPResponder (Name ifi)]> (arps a))
                            (ndps a) (ips a) (ipRefcnt a) (spamCh a)
            else a in
          let newNDP := bool_decide (Index ifi ∈ keep.2)
                        && bool_decide (ndps a1 !! Index ifi = None) in
          if newNDP && negb (ndpOpens ifi) then Return a1
          else
            Continue keep.1 keep.2
              (if newNDP
               then mkAnnounce (arps a1)
                               (<[Index ifi := newNDPResponder (Name ifi)]> (ndps a1))
                               (ips a1) (ipRefcnt a1) (spamCh a1)
               else a1)
  end.

Fixpoint scanLoop (ifs : list Interface) (keepARP keepNDP : gset Z)
    (a : Announce) : scan :=
  match ifs with
  | [] => Continue keepARP keepNDP a
  | ifi :: rest =>
      match scanInterface ifi keepARP keepNDP a with
      | Return a' => Return a'
      | Continue keepARP' keepNDP' a' => scanLoop rest keepARP' keepNDP' a'
      end
  end.

(** [a.updateInterfaces()]; [ifs] is the result of [net.Interfaces()],
    [None] when it fails.  The responders that leave the maps in the two
    final loops are closed and seen no more. *)
Definition updateInterfaces (ifs : option (list Interface)) (a : Announce)
  : Announce :=
  match ifs with
  | None => a
  | Some ifs =>
      match scanLoop ifs ∅ ∅ a with
      | Return a' => a'
      | Continue keepARP keepNDP a' =>
          mkAnnounce (filter (λ kv : Z * arpResponder, kv.1 ∈ keepARP) (arps a'))
                     (filter (λ kv : Z * ndpResponder, kv.1 ∈ keepNDP) (ndps a'))
                     (ips a') (ipRefcnt a') (spamCh a')
      end
  end.

(** ** The re-announce scheduler

    Instants and durations are counted in nanoseconds.  The state of
    [spamLoop] is its map of stop times and its ticker: [None] when the ticker
    is stopped, its period otherwise.  [spamLoop] shares nothing else with the
    rest of the announcer than the channel it reads and the calls of
    [a.gratuitous] it makes, so that each branch of its [select] is given as
    a function to the new state and the arguments of these calls, in the
    order they are made. *)

Definition Millisecond : Z := 1000000.
Definition Second : Z := 1000 * Millisecond.

Record spamLoopState : Type := mkSpam {
  spamMap : gmap string Z;      (* the local [m]: ip.String() -> stop time *)
  ticker : option Z
}.

(** Before the first turn of the loop: an empty map and a stopped ticker. *)
Definition spamInit : spamLoopState := mkSpam ∅ None.

(** [now.After(until)]. *)
Definition After (now until : Z) : bool := until <? now.

(** The branch [case ip := <-a.spamCh], with [now] the value of
    [time.Now()]. *)
Definition spamInput (ip : net.IP) (now : Z) (s : spamLoopState)
  : spamLoopState * list net.IP :=
  let tk := if bool_decide (size (spamMap s) = 0%nat)
            then Some (1100 * Millisecond) else ticker s in
  let ipStr := net.String ip in
  let ok := bool_decide (is_Some (spamMap s !! ipStr)) in
  (mkSpam (<[ipStr := now + 5 * Second]> (spamMap s)) tk,
   if ok then [] else [ip]).

(** The loop of the branch [case now := <-ticker.C] over the entries of the
    map, in the order [range] happens to visit them. *)
Fixpoint tickLoop (now : Z) (entries : list (string * Z)) (m : gmap string Z)
  : gmap string Z * list net.IP :=
  match entries with
  | [] => (m, [])
  | (ipStr, until) :: rest =>
      if After now until then
        (* We have spammed enough - remove the IP from the map. *)
        tickLoop now rest (delete ipStr m)
      else
        let r := tickLoop now rest m in
        (r.1, net.ParseIP ipStr :: r.2)
  end.

Definition spamTick (now : Z) (order : list (string * Z)) (s : spamLoopState)
  : spamLoopState * list net.IP :=
  let r := tickLoop now order (spamMap s) in
  (mkSpam r.1 (if bool_decide (size r.1 = 0%nat) then None else ticker s), r.2).

(** The calls of [a.gratuitous] of one branch, made one after the other. *)
Definition gratuitousAll (calls : list net.IP) (a : Announce) : Announce :=
  foldl (λ a ip, gratuitous ip a) a calls.

(** One turn of [spamLoop] that takes an address from the channel. *)
Definition spamRecv (now : Z) (s : spamLoopState) (a : Announce)
  : option (spamLoopState * Announce) :=
  match spamCh a with
  | [] => None
  | ip :: rest =>
      let r := spamInput ip now s in
      Some (r.1, gratuitousAll r.2
                   (mkAnnounce (arps a) (ndps a) (ips a) (ipRefcnt a) rest))
  end.

(** ** The registry as the specification counts it *)

(** The number of positions of the name lists that hold an address whose
    textual form is key. *)
Definition count_key (key : string) (l : list net.IP) : nat :=
  length (filter (λ ip, net.String ip = key) l).

Definition occurrences (a : Announce) (key : string) : nat :=
  map_fold (λ (_ : string) (l : list net.IP) (n : nat), (count_key key l + n)%nat)
           0%nat (ips a).

(** The calls of the facade. *)
Inductive op : Type :=
  | OpSet (name : string) (ip : net.IP)
  | OpDelete (name : string).

Definition run_op (o : op) (a : Announce) : Announce :=
  match o with
  | OpSet name ip => SetBalancer name ip a
  | OpDelete name => DeleteBalancer name a
  end.

Definition run (ops : list op) (a : Announce) : Announce :=
  foldl (λ a o, run_op o a) a ops.

(** The states the announcer can be in, with the number of [SetBalancer]
    calls made so far: the facade, the scans of the tracker, and the
    scheduler, which takes addresses from the channel and calls
    [a.gratuitous]. *)
Inductive reachable : nat → Announce → Prop :=
  | reach_New : reachable 0 New
  | reach_SetBalancer n a name ip :
      reachable n a → reachable (S n) (SetBalancer name ip a)
  | reach_DeleteBalancer n a name :
      reachable n a → reachable n (DeleteBalancer name a)
  | reach_updateInterfaces n a ifs :
      reachable n a → reachable n (updateInterfaces ifs a)
  | reach_gratuitous n a ip :
      reachable n a → reachable n (gratuitous ip a)
  | reach_receive n a ip rest :
      reachable n a → spamCh a = ip :: rest →
      reachable n (mkAnnounce (arps a) (ndps a) (ips a) (ipRefcnt a) rest).

(** ** [remove_all] in the words of the specification

    The addresses are taken in the order they were stored; each one has its
    count decremented, and is unwatched on every NDP responder when no
    reference is left. *)

Definition decrement (cnt : gmap string Z) (ip : net.IP) : gmap string Z :=
  <[net.String ip := wrap_int (refcnt_of cnt (net.String ip) - 1)]> cnt.

Definition decrementAll (l : list net.IP) (cnt : gmap string Z) : gmap string Z :=
  foldl decrement cnt l.

Definition unwatchAll (l : list net.IP) (nd : gmap Z ndpResponder)
  : gmap Z ndpResponder :=
  foldl (λ nd ip, ndpDo (NdpUnwatch ip) <$> nd) nd l.

(** Every address of l, in its turn, is left without a reference by its
    decrement. *)
Definition released (cnt : gmap string Z) (l : list net.IP) : Prop :=
  ∀ l1 y l2, l = l1 ++ y :: l2 →
    refcnt_of (decrementAll (l1 ++ [y]) cnt) (net.String y) ≤ 0.

(** ** Addresses and interfaces of the examples *)

Definition ip_10_0_0_1 : net.IP := [x0a; x00; x00; x01].

Definition ip_2001_db8__1 : net.IP :=
  [x20; x01; x0d; xb8; x00; x00; x00; x00; x00; x00; x00; x00; x00; x00; x00; x01].

Definition ip_fe80__1 : net.IP :=
  [xfe; x80; x00; x00; x00; x00; x00; x00; x00; x00; x00; x00; x00; x00; x00; x01].

(** An interface that is up, can broadcast, and has an IPv4 and a link-local
    IPv6 address. *)
Definition eth0 : Interface :=
  mkInterface 2 "eth0" 3 (Some [IPNet ip_fe80__1; IPNet [xc0; xa8; x01; x02]])
              false (Some 4099) true true.

(** A registry with one responder of each kind, where 10.0.0.1 was claimed
    and released again. *)
Definition released_10_0_0_1 : Announce :=
  DeleteBalancer "svc-a"
    (SetBalancer "svc-a" ip_10_0_0_1 (updateInterfaces (Some [eth0]) New)).

(** The registry with one responder of each kind and the two example
    addresses claimed. *)
Definition claimed_both : Announce :=
  SetBalancer "svc-c" ip_2001_db8__1
    (SetBalancer "svc-a" ip_10_0_0_1 (updateInterfaces (Some [eth0]) New)).

(** The registry once 2001:db8::1 has been claimed, before any interface is
    known. *)
Definition claimed_ipv6 : Announce := SetBalancer "svc-c" ip_2001_db8__1 New.

(** Two services share 10.0.0.1, and the first one also has 2001:db8::1,
    stored after it. *)
Definition shared_first : Announce :=
  run [OpSet "svc-a" ip_10_0_0_1; OpSet "svc-b" ip_10_0_0_1;
       OpSet "svc-a" ip_2001_db8__1]
      (updateInterfaces (Some [eth0]) New).

(** Two services share 10.0.0.1, the first one also has 2001:db8::1, and the
    first one is deleted. *)
Definition after_partial_delete : Announce :=
  run [OpSet "svc-a" ip_10_0_0_1; OpSet "svc-b" ip_10_0_0_1;
       OpSet "svc-a" ip_2001_db8__1; OpDelete "svc-a"] New.

(** The map of the scheduler at time 10, with one entry that has expired and
    one that has not. *)
Definition two_entries : spamLoopState :=
  mkSpam (<["10.0.0.1" := 5]> (<["2001:db8::1" := 12]> ∅)) (Some 1100000000).

(** ** Invariants of the scans and of the counts *)

(** In a state reached with n calls of [SetBalancer], a count is at least the
    number of positions that hold the address and at most n. *)
Definition counted (n : nat) (a : Announce) : Prop :=
  ∀ key, Z.of_nat (occurrences a key) ≤ refcnt a key ≤ Z.of_nat n.

(** The tracker and the scheduler leave the registry alone. *)
Definition same_registry (a a' : Announce) : Prop :=
  ips a' = ips a ∧ ipRefcnt a' = ipRefcnt a.

(** The state of the announcer when a turn of the scan loop is over. *)
Definition scan_state (r : scan) : Announce :=
  match r with Continue _ _ a => a | Return a => a end.

(** At every index, the responder is the one that was there, or a new one on
    which nothing has been called. *)
Definition ndps_grown (a a' : Announce) : Prop :=
  ∀ i, ndps a' !! i = ndps a !! i
       ∨ (ndps a !! i = None ∧ ∃ ifname, ndps a' !! i = Some (mkNdp ifname [])).

(** ** The facade as a sequence of calls *)

(** What a call of the facade does to the list kept under name, in the words
    of the specification: [SetBalancer] on that name appends, [DeleteBalancer]
    on that name empties, and a call on another name changes nothing. *)
Definition stored_step (name : string) (l : list net.IP) (o : op)
  : list net.IP :=
  match o with
  | OpSet n ip => if decide (n = name) then l ++ [ip] else l
  | OpDelete n => if decide (n = name) then [] else l
  end.

Definition stored (name : string) (ops : list op) (l : list net.IP)
  : list net.IP :=
  foldl (stored_step name) l ops.


(** ** Multicast groups and counts *)

(** What a call on an NDP responder does to its membership of the group of
    the address whose textual form is key. *)
Definition watch_delta (key : string) (c : ndpCall) : Z :=
  match c with
  | NdpWatch ip => if decide (net.String ip = key) then 1 else 0
  | NdpUnwatch ip => if decide (net.String ip = key) then -1 else 0
  | NdpGratuitous _ => 0
  end.

(** The calls of [Watch] less the calls of [Unwatch] for key. *)
Definition watch_balance (key : string) (calls : list ndpCall) : Z :=
  foldr (λ c z, watch_delta key c + z) 0 calls.

(** Every NDP responder has been asked to watch exactly the addresses whose
    count is positive, once each. *)
Definition watch_consistent (a : Announce) : Prop :=
  ∀ i r key, ndps a !! i = Some r →
    watch_balance key (ndpCalls r) = if 0 <? refcnt a key then 1 else 0.

(** ** Eligible interfaces *)

(** The interfaces a scan passes over: down, enslaved to a master, or with
    the NOARP bit in the flags read from the system. *)
Definition skipped (ifi : Interface) : bool :=
  (Z.land (Flags ifi) FlagUp =? 0)
  || hasMaster ifi
  || match sysFlags ifi with
     | Some flags => negb (Z.land flags 128 =? 0)
     | None => false
     end.

Definition hasIPv4 (ad : Addr) : bool :=
  match ad with
  | IPNet ip => bool_decide (is_Some (net.To4 ip))
  | OtherAddr => false
  end.

Definition hasLinkLocal (ad : Addr) : bool :=
  match ad with
  | IPNet ip => net.IsLinkLocalUnicast ip
  | OtherAddr => false
  end.

(** An interface that gets an ARP responder: not passed over, able to
    broadcast, with an IPv4 address. *)
Definition arpEligible (ifi : Interface) : bool :=
  negb (skipped ifi)
  && negb (Z.land (Flags ifi) FlagBroadcast =? 0)
  && existsb hasIPv4 (default [] (Addrs ifi)).

(** An interface that gets an NDP responder: not passed over, with a
    link-local unicast address. *)
Definition ndpEligible (ifi : Interface) : bool :=
  negb (skipped ifi) && existsb hasLinkLocal (default [] (Addrs ifi)).

(** Nothing fails during the scan of this interface. *)
Definition scans_well (ifi : Interface) : Prop :=
  is_Some (Addrs ifi) ∧ arpOpens ifi = true ∧ ndpOpens ifi = true.

(** The ARP side of [ndps_grown]. *)
Definition arps_grown (a a' : Announce) : Prop :=
  ∀ i, arps a' !! i = arps a !! i
       ∨ (arps a !! i = None ∧ ∃ ifname, arps a' !! i = Some (mkArp ifname [])).

(** ** The states of the scheduler *)

(** The states [spamLoop] goes through: it starts with an empty map and a
    stopped ticker, and each turn takes an address from the channel or a tick
    of the ticker, the entries of the map being visited in some order. *)
Inductive spam_reachable : spamLoopState → Prop :=
  | spam_start : spam_reachable spamInit
  | spam_input s ip now :
      spam_reachable s → spam_reachable (spamInput ip now s).1
  | spam_tick s now order :
      spam_reachable s → order ≡ₚ map_to_list (spamMap s) →
      spam_reachable (spamTick now order s).1.

(** * Properties *)

(** ** The functions of the [net] package on the examples *)

Example String_10_0_0_1 : net.String ip_10_0_0_1 = "10.0.0.1".
Proof. reflexivity. Qed.

Example String_2001_db8__1 : net.String ip_2001_db8__1 = "2001:db8::1".
Proof. reflexivity. Qed.

Example String_IPv4_16 :
  net.String (net.IPv4 x0a x00 x00 x01) = "10.0.0.1".
Proof. reflexivity. Qed.

Example ParseIP_10_0_0_1 : net.ParseIP "10.0.0.1" = net.IPv4 x0a x00 x00 x01.
Proof. reflexivity. Qed.

Example ParseIP_2001_db8__1 : net.ParseIP "2001:db8::1" = ip_2001_db8__1.
Proof. reflexivity. Qed.

Example ParseIP_nil : net.ParseIP "<nil>" = [].
Proof. reflexivity. Qed.

Example Equal_4_16 :
  net.Equal ip_10_0_0_1 (net.IPv4 x0a x00 x00 x01) = true.
Proof. reflexivity. Qed.

(** ** Arithmetic of the counters *)

Lemma wrap_int_id z : min_int ≤ z ≤ max_int → wrap_int z = z.
Proof.
  unfold min_int, max_int, wrap_int. intros H.
  rewrite Z.mod_small by lia. lia.
Qed.

Lemma refcnt_of_insert cnt k v k' :
  refcnt_of (<[k := v]> cnt) k' = if decide (k = k') then v else refcnt_of cnt k'.
Proof.
  unfold refcnt_of. rewrite lookup_insert. by case_decide.
Qed.

Lemma refcnt_of_insert_ne cnt k v k' :
  k ≠ k' → refcnt_of (<[k := v]> cnt) k' = refcnt_of cnt k'.
Proof. intros. rewrite refcnt_of_insert. by rewrite decide_False. Qed.

(** ** What the loop of [DeleteBalancer] leaves alone *)

Lemma deleteLoop_ips l a : ips (deleteLoop l a) = ips a.
Proof.
  revert a. induction l as [|ip l IH]; intros a; simpl; [done|].
  destruct (_ >? 0); [done|]. by rewrite IH.
Qed.

(** C10 - [DeleteBalancer(name)] takes the entry of name out of the map of
    names whatever happens in the loop over its addresses, so that
    [AnnounceName(name)] is false afterwards, also when the loop returned
    early; and when name has no entry, the call changes nothing. *)
Theorem DeleteBalancer_removes_name name a :
  AnnounceName name (DeleteBalancer name a) = false
  ∧ ips (DeleteBalancer name a) = delete name (ips a)
  ∧ (AnnounceName name a = false → DeleteBalancer name a = a).
Proof.
  assert (Hips : ips (DeleteBalancer name a) = delete name (ips a)).
  { unfold DeleteBalancer. destruct (ips a !! name) as [l|] eqn:E.
    - by rewrite deleteLoop_ips.
    - symmetry. by apply delete_id. }
  split_and!; [|done|].
  - unfold AnnounceName. rewrite Hips, lookup_delete_eq.
    apply bool_decide_eq_false. by intros [? ?].
  - unfold AnnounceName, DeleteBalancer. intros H%bool_decide_eq_false.
    destruct (ips a !! name); [|done]. destruct H; eauto.
Qed.

Lemma DeleteBalancer_removes_name_witness :
  AnnounceName "svc-a" New = false ∧ DeleteBalancer "svc-a" New = New.
Proof.
  split; [reflexivity|].
  apply (DeleteBalancer_removes_name "svc-a" New). reflexivity.
Defined.

(** ** [gratuitous] *)

Lemma gratuitous_refcnt ip a key : refcnt (gratuitous ip a) key = refcnt a key.
Proof.
  unfold gratuitous. destruct (_ <=? 0); [done|]. by destruct (net.To4 ip).
Qed.

(** What one call of [gratuitous] adds to the calls of an ARP responder. *)
Lemma gratuitous_arps ip a i r' :
  arps (gratuitous ip a) !! i = Some r' →
  ∃ r, arps a !! i = Some r
       ∧ (arpCalls r' = arpCalls r
          ∨ (arpCalls r' = arpCalls r ++ [ArpGratuitous ip]
             ∧ 0 < refcnt a (net.String ip))).
Proof.
  unfold gratuitous.
  destruct (Z.leb_spec (refcnt a (net.String ip)) 0) as [Hle|Hlt].
  { intros H. exists r'. by split; [|left]. }
  destruct (net.To4 ip); cbn [arps].
  - rewrite lookup_fmap. destruct (arps a !! i) as [r|]; [|done].
    intros [= <-]. exists r. split; [done|]. by right.
  - intros H. exists r'. by split; [|left].
Qed.

Lemma gratuitous_ndps ip a i r' :
  ndps (gratuitous ip a) !! i = Some r' →
  ∃ r, ndps a !! i = Some r
       ∧ (ndpCalls r' = ndpCalls r
          ∨ (ndpCalls r' = ndpCalls r ++ [NdpGratuitous ip]
             ∧ 0 < refcnt a (net.String ip))).
Proof.
  unfold gratuitous.
  destruct (Z.leb_spec (refcnt a (net.String ip)) 0) as [Hle|Hlt].
  { intros H. exists r'. by split; [|left]. }
  destruct (net.To4 ip); cbn [ndps].
  - intros H. exists r'. by split; [|left].
  - rewrite lookup_fmap. destruct (ndps a !! i) as [r|]; [|done].
    intros [= <-]. exists r. split; [done|]. by right.
Qed.

(** The calls added by the later calls of a run, seen from its start. *)
Ltac later_calls Hnew Hcnt :=
  let c := fresh "c" in let Hc := fresh "Hc" in let z := fresh "z" in
  let Hz := fresh "Hz" in let Hpos := fresh "Hpos" in
  intros c Hc; destruct (Hnew c Hc) as (z & -> & Hz & Hpos);
  exists z; rewrite Hcnt in Hpos; split_and!; [done| |done];
  by apply elem_of_cons; right.

(** C6 - [gratuitous] reads the count of the address first and returns at
    once when it is not positive: the call changes nothing, no responder is
    asked for a frame.  Over any run of calls of [gratuitous], as the
    scheduler makes them, what is added to the calls of a responder is
    [Gratuitous] for addresses whose count is positive. *)
Theorem gratuitous_needs_refcount ip a :
  (refcnt a (net.String ip) ≤ 0 → gratuitous ip a = a)
  ∧ (∀ calls i r',
       arps (gratuitousAll calls a) !! i = Some r' →
       ∃ r new, arps a !! i = Some r ∧ arpCalls r' = arpCalls r ++ new
         ∧ ∀ c, c ∈ new →
             ∃ y, c = ArpGratuitous y ∧ y ∈ calls ∧ 0 < refcnt a (net.String y))
  ∧ (∀ calls i r',
       ndps (gratuitousAll calls a) !! i = Some r' →
       ∃ r new, ndps a !! i = Some r ∧ ndpCalls r' = ndpCalls r ++ new
         ∧ ∀ c, c ∈ new →
             ∃ y, c = NdpGratuitous y ∧ y ∈ calls ∧ 0 < refcnt a (net.String y)).
Proof.
  split_and!.
  - unfold gratuitous. intros H.
    destruct (Z.leb_spec (refcnt a (net.String ip)) 0); [done|lia].
  - intros calls. revert a.
    induction calls as [|y calls IH]; intros a i r' H; cbn [gratuitousAll foldl] in H.
    + exists r', []. rewrite app_nil_r. split_and!; [done..|].
      intros c Hc. by apply elem_of_nil in Hc.
    + apply IH in H as (r1 & new & Hr1 & Hlog & Hnew).
      pose proof (gratuitous_refcnt y a) as Hcnt.
      apply gratuitous_arps in Hr1 as (r & Hr & [Hsame|[Hadd Hpos]]).
      * exists r, new. split_and!; [done|congruence|]. later_calls Hnew Hcnt.
      * exists r, (ArpGratuitous y :: new). split_and!; [done| |].
        { rewrite Hlog, Hadd. by rewrite <- app_assoc. }
        intros c [->|Hc]%elem_of_cons; [|revert c Hc; later_calls Hnew Hcnt].
        exists y. split_and!; [done| |done]. by apply elem_of_cons; left.
  - intros calls. revert a.
    induction calls as [|y calls IH]; intros a i r' H; cbn [gratuitousAll foldl] in H.
    + exists r', []. rewrite app_nil_r. split_and!; [done..|].
      intros c Hc. by apply elem_of_nil in Hc.
    + apply IH in H as (r1 & new & Hr1 & Hlog & Hnew).
      pose proof (gratuitous_refcnt y a) as Hcnt.
      apply gratuitous_ndps in Hr1 as (r & Hr & [Hsame|[Hadd Hpos]]).
      * exists r, new. split_and!; [done|congruence|]. later_calls Hnew Hcnt.
      * exists r, (NdpGratuitous y :: new). split_and!; [done| |].
        { rewrite Hlog, Hadd. by rewrite <- app_assoc. }
        intros c [->|Hc]%elem_of_cons; [|revert c Hc; later_calls Hnew Hcnt].
        exists y. split_and!; [done| |done]. by apply elem_of_cons; left.
Qed.

Lemma gratuitous_needs_refcount_witness :
  refcnt released_10_0_0_1 (net.String ip_10_0_0_1) ≤ 0
  ∧ gratuitous ip_10_0_0_1 released_10_0_0_1 = released_10_0_0_1.
Proof.
  assert (H : refcnt released_10_0_0_1 (net.String ip_10_0_0_1) ≤ 0).
  { vm_compute. intros E. discriminate E. }
  split; [exact H|].
  exact (proj1 (gratuitous_needs_refcount ip_10_0_0_1 released_10_0_0_1) H).
Defined.

(** C9 - with a positive count, [gratuitous] asks every responder of the
    family of the address for one frame and no responder of the other
    family: every ARP responder when [To4] gives an address, every NDP
    responder otherwise. *)
Theorem gratuitous_matching_family ip a :
  0 < refcnt a (net.String ip) →
  (is_Some (net.To4 ip) →
     (∀ i, arps (gratuitous ip a) !! i
           = arpDo (ArpGratuitous ip) <$> arps a !! i)
     ∧ ndps (gratuitous ip a) = ndps a)
  ∧ (net.To4 ip = None →
     (∀ i, ndps (gratuitous ip a) !! i
           = ndpDo (NdpGratuitous ip) <$> ndps a !! i)
     ∧ arps (gratuitous ip a) = arps a).
Proof.
  intros Hpos. unfold gratuitous.
  destruct (Z.leb_spec (refcnt a (net.String ip)) 0) as [Hle|_]; [lia|].
  split.
  - intros [p4 Hp4]. rewrite Hp4. simpl. split; [|done].
    intros i. apply lookup_fmap.
  - intros Hnone. rewrite Hnone. simpl. split; [|done].
    intros i. apply lookup_fmap.
Qed.

Lemma gratuitous_matching_family_witness :
  0 < refcnt claimed_both (net.String ip_10_0_0_1)
  ∧ arps (gratuitous ip_10_0_0_1 claimed_both) !! 2
    = Some (mkArp "eth0" [ArpGratuitous ip_10_0_0_1])
  ∧ ndps (gratuitous ip_10_0_0_1 claimed_both) = ndps claimed_both.
Proof.
  assert (H : 0 < refcnt claimed_both (net.String ip_10_0_0_1))
    by reflexivity.
  destruct (gratuitous_matching_family ip_10_0_0_1 claimed_both H)
    as [H4 _].
  destruct H4 as [Harp Hndp]; [by eexists|].
  split_and!; [exact H| |exact Hndp].
  rewrite Harp. reflexivity.
Defined.

Example gratuitous_ipv6 :
  ndps (gratuitous ip_2001_db8__1 claimed_both) !! 2
  = Some (mkNdp "eth0" [NdpWatch ip_10_0_0_1; NdpWatch ip_2001_db8__1;
                        NdpGratuitous ip_2001_db8__1])
  ∧ arps (gratuitous ip_2001_db8__1 claimed_both) = arps claimed_both.
Proof. split; reflexivity. Qed.

(** ** The scheduler *)

(** C7 - on an address from the channel, the scheduler calls [gratuitous] for
    it in the same turn exactly when the map has no entry for it, sets its
    stop time to five seconds from now in both cases and leaves the other
    entries alone, and starts the ticker with a period of 1100 ms when the
    map was empty. *)
Theorem spamInput_spec ip now s :
  (spamMap s !! net.String ip = None → (spamInput ip now s).2 = [ip])
  ∧ (is_Some (spamMap s !! net.String ip) → (spamInput ip now s).2 = [])
  ∧ spamMap (spamInput ip now s).1 !! net.String ip
    = Some (now + 5 * 1000 * 1000000)
  ∧ (∀ k, k ≠ net.String ip →
       spamMap (spamInput ip now s).1 !! k = spamMap s !! k)
  ∧ (spamMap s = ∅ → ticker (spamInput ip now s).1 = Some (1100 * 1000000))
  ∧ (spamMap s ≠ ∅ → ticker (spamInput ip now s).1 = ticker s)
  ∧ (∀ a rest, spamCh a = ip :: rest →
       spamRecv now s a
       = Some ((spamInput ip now s).1,
               let a' := mkAnnounce (arps a) (ndps a) (ips a) (ipRefcnt a) rest in
               if bool_decide (spamMap s !! net.String ip = None)
               then gratuitous ip a' else a')).
Proof.
  unfold spamInput; simpl. split_and!.
  - intros ->. rewrite bool_decide_eq_false_2; [done|]. by intros [? ?].
  - intros H. by rewrite bool_decide_eq_true_2.
  - rewrite lookup_insert_eq. f_equal.
  - intros k Hk. by rewrite lookup_insert_ne.
  - intros ->. rewrite map_size_empty. by rewrite bool_decide_eq_true_2.
  - intros Hne. rewrite bool_decide_eq_false_2; [done|].
    by rewrite map_size_empty_iff.
  - intros a rest Hch. unfold spamRecv, spamInput. rewrite Hch. simpl.
    do 2 f_equal.
    destruct (spamMap s !! net.String ip) as [u|] eqn:E.
    + rewrite bool_decide_eq_true_2 by eauto.
      by rewrite bool_decide_eq_false_2.
    + rewrite bool_decide_eq_false_2 by (by intros [? ?]).
      by rewrite bool_decide_eq_true_2.
Qed.

Lemma spamInput_spec_witness :
  spamMap spamInit !! net.String ip_10_0_0_1 = None
  ∧ (spamInput ip_10_0_0_1 7 spamInit).2 = [ip_10_0_0_1]
  ∧ ticker (spamInput ip_10_0_0_1 7 spamInit).1 = Some 1100000000.
Proof.
  destruct (spamInput_spec ip_10_0_0_1 7 spamInit)
    as (Hnew & _ & _ & _ & Harm & _).
  split_and!; [reflexivity|apply Hnew; reflexivity|apply Harm; reflexivity].
Defined.

Lemma tickLoop_spec now order m :
  NoDup order.*1 →
  (tickLoop now order m).1
    = foldr (λ kv m, if After now kv.2 then delete kv.1 m else m) m order
  ∧ (tickLoop now order m).2
    = net.ParseIP <$> (filter (λ kv : string * Z, ¬ kv.2 < now) order).*1.
Proof.
  revert m. induction order as [|[k u] order IH]; intros m Hnd; [done|].
  rewrite fmap_cons in Hnd. apply NoDup_cons in Hnd as [Hk Hnd].
  cbn [tickLoop foldr fst snd]. rewrite filter_cons. cbn [fst snd].
  destruct (After now u) eqn:E; unfold After in E.
  - apply Z.ltb_lt in E. destruct (IH (delete k m) Hnd) as [-> ->].
    rewrite decide_False by lia. split; [|done].
    clear IH Hnd. induction order as [|[k' u'] order IH]; [done|].
    rewrite fmap_cons in Hk. apply not_elem_of_cons in Hk as [Hne Hk].
    cbn [foldr fst snd] in *. rewrite IH by done.
    destruct (After now u'); [|done]. apply delete_delete.
  - apply Z.ltb_ge in E. destruct (IH m Hnd) as [-> ->].
    rewrite decide_True by lia. done.
Qed.

Lemma tickLoop_lookup now order (m : gmap string Z) k :
  (((∃ u, (k, u) ∈ order ∧ u < now) →
    foldr (λ (kv : string * Z) m, if After now kv.2 then delete kv.1 m else m)
          m order !! k = None)
   ∧ ((∀ u, (k, u) ∈ order → ¬ u < now) →
      foldr (λ (kv : string * Z) m, if After now kv.2 then delete kv.1 m else m)
            m order !! k = m !! k)).
Proof.
  induction order as [|[k' u'] order [IH1 IH2]]; cbn [foldr fst snd].
  - split; [|done]. intros (u & Hu & _). by apply elem_of_nil in Hu.
  - assert (Hsub : ∀ u, (k, u) ∈ order → (k, u) ∈ (k', u') :: order)
      by (intros; by right).
    destruct (After now u') eqn:E; unfold After in E;
      [apply Z.ltb_lt in E|apply Z.ltb_ge in E].
    + destruct (decide (k' = k)) as [->|Hne].
      * rewrite lookup_delete_eq. split; [done|].
        intros H. destruct (H u'); [by left|done].
      * rewrite lookup_delete_ne by done. split.
        -- intros (u & [E'|Hu]%elem_of_cons & Hlt).
           ++ by injection E' as -> ->.
           ++ apply IH1. by exists u.
        -- intros H. apply IH2. intros u Hu. by apply H, Hsub.
    + split.
      * intros (u & [E'|Hu]%elem_of_cons & Hlt).
        -- injection E' as -> ->. lia.
        -- apply IH1. by exists u.
      * intros H. apply IH2. intros u Hu. by apply H, Hsub.
Qed.

(** C8 - on a tick, whatever the order in which the entries are visited:
    the entries whose stop time is before now leave the map, with no call of
    [gratuitous]; every other entry stays and has exactly one call of
    [gratuitous], for the address its key parses to; and the ticker is
    stopped when the map is left empty. *)
Theorem spamTick_spec now order s :
  order ≡ₚ map_to_list (spamMap s) →
  (∀ k until, spamMap s !! k = Some until → until < now →
     spamMap (spamTick now order s).1 !! k = None)
  ∧ (∀ k until, spamMap s !! k = Some until → ¬ until < now →
       spamMap (spamTick now order s).1 !! k = Some until)
  ∧ (∀ k, spamMap s !! k = None → spamMap (spamTick now order s).1 !! k = None)
  ∧ (∃ keys, (spamTick now order s).2 = net.ParseIP <$> keys
       ∧ NoDup keys
       ∧ ∀ k, k ∈ keys ↔ ∃ until, spamMap s !! k = Some until ∧ ¬ until < now)
  ∧ (spamMap (spamTick now order s).1 = ∅ → ticker (spamTick now order s).1 = None)
  ∧ (spamMap (spamTick now order s).1 ≠ ∅ →
       ticker (spamTick now order s).1 = ticker s).
Proof.
  intros Hperm.
  assert (Hnd : NoDup order.*1).
  { rewrite Hperm. apply NoDup_fst_map_to_list. }
  assert (Hin : ∀ k u, (k, u) ∈ order ↔ spamMap s !! k = Some u).
  { intros k u. rewrite Hperm. apply elem_of_map_to_list. }
  destruct (tickLoop_spec now order (spamMap s) Hnd) as [Hm Hcalls].
  unfold spamTick. simpl. rewrite Hcalls, Hm.
  split_and!.
  - intros k u Hk Hlt. apply tickLoop_lookup. exists u. by rewrite Hin.
  - intros k u Hk Hge.
    rewrite (proj2 (tickLoop_lookup now order (spamMap s) k)); [done|].
    intros u' Hu'. apply Hin in Hu'. congruence.
  - intros k Hk.
    rewrite (proj2 (tickLoop_lookup now order (spamMap s) k)); [done|].
    intros u' Hu'. apply Hin in Hu'. congruence.
  - exists (filter (λ kv : string * Z, ¬ kv.2 < now) order).*1.
    split_and!; [done| |].
    + clear -Hnd. induction order as [|[k u] order IH]; [constructor|].
      simpl in Hnd. apply NoDup_cons in Hnd as [Hk Hnd].
      rewrite filter_cons. case_decide; [|by apply IH].
      simpl. apply NoDup_cons. split; [|by apply IH].
      intros ([k' u'] & -> & Hin)%list_elem_of_fmap.
      apply list_elem_of_filter in Hin as [_ Hin].
      apply Hk. apply list_elem_of_fmap. by exists (k', u').
    + intros k. rewrite list_elem_of_fmap. split.
      * intros ([k' u] & -> & [Hge Hku]%list_elem_of_filter).
        exists u. split; [by apply Hin|done].
      * intros (u & Hk & Hge). exists (k, u). split; [done|].
        apply list_elem_of_filter. split; [done|]. by apply Hin.
  - intros ->. by rewrite map_size_empty, bool_decide_eq_true_2.
  - intros Hne. rewrite bool_decide_eq_false_2; [done|].
    by rewrite map_size_empty_iff.
Qed.

Lemma spamTick_spec_witness :
  [("2001:db8::1"%string, 12); ("10.0.0.1"%string, 5)]
    ≡ₚ map_to_list (spamMap two_entries)
  ∧ spamMap (spamTick 10 [("2001:db8::1"%string, 12); ("10.0.0.1"%string, 5)]
                      two_entries).1 !! "10.0.0.1" = None
  ∧ spamMap (spamTick 10 [("2001:db8::1"%string, 12); ("10.0.0.1"%string, 5)]
                      two_entries).1 !! "2001:db8::1" = Some 12.
Proof.
  assert (H : [("2001:db8::1"%string, 12); ("10.0.0.1"%string, 5)]
                ≡ₚ map_to_list (spamMap two_entries)).
  { unfold two_entries; simpl.
    rewrite map_to_list_insert by reflexivity.
    rewrite map_to_list_insert by reflexivity.
    rewrite map_to_list_empty. apply perm_swap. }
  destruct (spamTick_spec 10 _ two_entries H) as (Hold & Hlive & _).
  split_and!; [exact H| |].
  - apply (Hold _ 5); reflexivity.
  - apply (Hlive _ 12); [reflexivity|]. intros E. discriminate E.
Defined.

Example spamTick_two_entries :
  (spamTick 10 [("2001:db8::1"%string, 12); ("10.0.0.1"%string, 5)]
            two_entries).2 = [ip_2001_db8__1]
  ∧ (spamTick 13 [("2001:db8::1"%string, 12); ("10.0.0.1"%string, 5)]
              two_entries) = (mkSpam ∅ None, []).
Proof. split; reflexivity. Qed.

(** ** [DeleteBalancer] and the order of the addresses *)

Lemma decrementAll_app l1 l2 cnt :
  decrementAll (l1 ++ l2) cnt = decrementAll l2 (decrementAll l1 cnt).
Proof. apply foldl_app. Qed.

Lemma released_cons cnt y l :
  released cnt (y :: l) →
  refcnt_of (decrement cnt y) (net.String y) ≤ 0 ∧ released (decrement cnt y) l.
Proof.
  intros H. split.
  - apply (H [] y l). done.
  - intros l1 z l2 ->. apply (H (y :: l1) z l2). done.
Qed.

Lemma decrementAll_other l cnt k :
  k ∉ net.String <$> l → refcnt_of (decrementAll l cnt) k = refcnt_of cnt k.
Proof.
  revert cnt. induction l as [|y l IH]; intros cnt Hk; [done|].
  rewrite fmap_cons in Hk. apply not_elem_of_cons in Hk as [Hne Hk].
  cbn [decrementAll foldl]. fold (decrementAll l (decrement cnt y)).
  rewrite IH by done. unfold decrement. by rewrite refcnt_of_insert_ne.
Qed.

Lemma deleteLoop_cons ip rest a :
  deleteLoop (ip :: rest) a
  = if refcnt_of (decrement (ipRefcnt a) ip) (net.String ip) >? 0
    then mkAnnounce (arps a) (ndps a) (ips a) (decrement (ipRefcnt a) ip)
                    (spamCh a)
    else deleteLoop rest
           (mkAnnounce (arps a) (ndpDo (NdpUnwatch ip) <$> ndps a) (ips a)
                       (decrement (ipRefcnt a) ip) (spamCh a)).
Proof. reflexivity. Qed.

(** The loop goes through addresses that are released, unwatching each. *)
Lemma deleteLoop_released pre rest a :
  released (ipRefcnt a) pre →
  deleteLoop (pre ++ rest) a
  = deleteLoop rest
      (mkAnnounce (arps a) (unwatchAll pre (ndps a)) (ips a)
                  (decrementAll pre (ipRefcnt a)) (spamCh a)).
Proof.
  revert a. induction pre as [|y pre IH]; intros a Hrel.
  - by destruct a.
  - apply released_cons in Hrel as [Hy Hrel].
    cbn [app]. rewrite deleteLoop_cons.
    destruct (Z.gtb_spec (refcnt_of (decrement (ipRefcnt a) y) (net.String y)) 0)
      as [Hgt|_]; [lia|].
    rewrite IH by exact Hrel. done.
Qed.

(** The loop returns at an address that keeps a reference. *)
Lemma deleteLoop_shared x post a :
  0 < refcnt_of (decrement (ipRefcnt a) x) (net.String x) →
  deleteLoop (x :: post) a
  = mkAnnounce (arps a) (ndps a) (ips a) (decrement (ipRefcnt a) x) (spamCh a).
Proof.
  intros Hpos. rewrite deleteLoop_cons.
  destruct (Z.gtb_spec (refcnt_of (decrement (ipRefcnt a) x) (net.String x)) 0)
    as [_|Hle]; [done|lia].
Qed.

(** C2 - [DeleteBalancer(name)] takes the addresses stored under name in the
    order they were stored and decrements the count of each; it stops at the
    first address whose count is still positive after its decrement: the
    addresses before it have been decremented and unwatched, this one has
    been decremented only, and the addresses after it keep their count and are
    not unwatched.  When no address keeps a reference, all of them are
    decremented and unwatched. *)
Theorem DeleteBalancer_stops_at_first_shared name a l :
  ips a !! name = Some l →
  (∀ pre x post,
     l = pre ++ x :: post →
     released (ipRefcnt a) pre →
     0 < refcnt_of (decrementAll (pre ++ [x]) (ipRefcnt a)) (net.String x) →
     DeleteBalancer name a
     = mkAnnounce (arps a) (unwatchAll pre (ndps a)) (delete name (ips a))
                  (decrementAll (pre ++ [x]) (ipRefcnt a)) (spamCh a)
     ∧ ∀ z, z ∈ post → net.String z ∉ net.String <$> (pre ++ [x]) →
         refcnt (DeleteBalancer name a) (net.String z) = refcnt a (net.String z))
  ∧ (released (ipRefcnt a) l →
     DeleteBalancer name a
     = mkAnnounce (arps a) (unwatchAll l (ndps a)) (delete name (ips a))
                  (decrementAll l (ipRefcnt a)) (spamCh a)).
Proof.
  intros Hl. unfold DeleteBalancer. rewrite Hl. split.
  - intros pre x post -> Hrel Hpos.
    rewrite deleteLoop_released by done.
    rewrite decrementAll_app in Hpos. cbn [decrementAll foldl] in Hpos.
    rewrite deleteLoop_shared by done. cbn [arps ndps ips ipRefcnt spamCh].
    rewrite decrementAll_app. split; [done|].
    intros z _ Hz. unfold refcnt. cbn [ipRefcnt].
    change (decrement (decrementAll pre (ipRefcnt a)) x)
      with (decrementAll [x] (decrementAll pre (ipRefcnt a))).
    rewrite <- decrementAll_app. by apply decrementAll_other.
  - intros Hrel.
    rewrite <- (app_nil_r l) at 1. rewrite deleteLoop_released by done.
    done.
Qed.

Lemma DeleteBalancer_stops_at_first_shared_witness :
  ips shared_first !! "svc-a" = Some ([] ++ ip_10_0_0_1 :: [ip_2001_db8__1])
  ∧ released (ipRefcnt shared_first) []
  ∧ 0 < refcnt_of (decrementAll ([] ++ [ip_10_0_0_1]) (ipRefcnt shared_first))
                  (net.String ip_10_0_0_1)
  ∧ refcnt (DeleteBalancer "svc-a" shared_first) (net.String ip_2001_db8__1)
    = refcnt shared_first (net.String ip_2001_db8__1)
  ∧ ndps (DeleteBalancer "svc-a" shared_first) = ndps shared_first.
Proof.
  assert (H1 : ips shared_first !! "svc-a"
               = Some ([] ++ ip_10_0_0_1 :: [ip_2001_db8__1])) by reflexivity.
  assert (H2 : released (ipRefcnt shared_first) []).
  { intros l1 y l2 E. destruct l1; discriminate E. }
  assert (H3 : 0 < refcnt_of (decrementAll ([] ++ [ip_10_0_0_1])
                                (ipRefcnt shared_first))
                             (net.String ip_10_0_0_1)) by reflexivity.
  destruct (DeleteBalancer_stops_at_first_shared "svc-a" shared_first _ H1)
    as [Hstop _].
  destruct (Hstop [] ip_10_0_0_1 [ip_2001_db8__1] eq_refl H2 H3) as [Heq Hrest].
  split_and!; [exact H1|exact H2|exact H3| |].
  - apply Hrest; [by left|].
    change (net.String ip_2001_db8__1) with "2001:db8::1"%string.
    change (net.String <$> [] ++ [ip_10_0_0_1]) with ["10.0.0.1"%string].
    intros [E|E]%elem_of_cons; [discriminate E|by apply elem_of_nil in E].
  - rewrite Heq. reflexivity.
Defined.

(** ** The counts in the reachable states *)

Lemma count_key_cons key ip l :
  count_key key (ip :: l)
  = ((if decide (net.String ip = key) then 1 else 0) + count_key key l)%nat.
Proof. unfold count_key. rewrite filter_cons. by case_decide. Qed.

Lemma count_key_app key l1 l2 :
  count_key key (l1 ++ l2) = (count_key key l1 + count_key key l2)%nat.
Proof. unfold count_key. by rewrite filter_app, length_app. Qed.

Section occurrences.
Variable key : string.

Let f := λ (_ : string) (l : list net.IP) (n : nat), (count_key key l + n)%nat.

Lemma occurrences_fold a : occurrences a key = map_fold f 0%nat (ips a).
Proof. reflexivity. Qed.

Lemma fold_insert_fresh (m : gmap string (list net.IP)) name l :
  m !! name = None →
  map_fold f 0%nat (<[name := l]> m)
  = (count_key key l + map_fold f 0%nat m)%nat.
Proof.
  intros H. rewrite map_fold_insert_L; [done| |done].
  intros. unfold f. lia.
Qed.

Lemma fold_delete (m : gmap string (list net.IP)) name l :
  m !! name = Some l →
  map_fold f 0%nat m
  = (count_key key l + map_fold f 0%nat (delete name m))%nat.
Proof.
  intros H. rewrite (map_fold_delete_L f 0%nat name l m); [done| |done].
  intros. unfold f. lia.
Qed.

Lemma fold_insert (m : gmap string (list net.IP)) name l :
  (map_fold f 0%nat (<[name := l]> m) + count_key key (default [] (m !! name)))%nat
  = (count_key key l + map_fold f 0%nat m)%nat.
Proof.
  destruct (m !! name) as [l0|] eqn:E; simpl.
  - rewrite <- insert_delete_eq.
    rewrite fold_insert_fresh by apply lookup_delete_eq.
    rewrite (fold_delete m name l0 E). lia.
  - rewrite fold_insert_fresh by done. unfold count_key. simpl. lia.
Qed.
End occurrences.

Lemma occurrences_SetBalancer name ip a key :
  occurrences (SetBalancer name ip a) key
  = ((if decide (net.String ip = key) then 1 else 0) + occurrences a key)%nat.
Proof.
  rewrite !occurrences_fold. cbn [SetBalancer ips].
  pose proof (fold_insert key (ips a) name (ips_of a name ++ [ip])) as H.
  rewrite count_key_app, count_key_cons in H. unfold ips_of in *.
  unfold count_key at 4 in H. simpl in H. lia.
Qed.

Lemma occurrences_delete name l a key :
  ips a !! name = Some l →
  occurrences a key
  = (count_key key l
     + occurrences (mkAnnounce (arps a) (ndps a) (delete name (ips a))
                               (ipRefcnt a) (spamCh a)) key)%nat.
Proof. intros H. rewrite !occurrences_fold. by apply fold_delete. Qed.

Lemma deleteLoop_counted n l a :
  Z.of_nat n ≤ max_int →
  (∀ key, Z.of_nat (occurrences a key + count_key key l) ≤ refcnt a key
          ≤ Z.of_nat n) →
  counted n (deleteLoop l a).
Proof.
  intros Hn. revert a. induction l as [|ip l IH]; intros a H.
  - intros key. specialize (H key). cbn [deleteLoop]. unfold count_key in H.
    simpl in H. lia.
  - assert (Hdec : ∀ key,
      refcnt_of (decrement (ipRefcnt a) ip) key
      = refcnt a key - (if decide (net.String ip = key) then 1 else 0)).
    { intros key. unfold decrement. rewrite refcnt_of_insert.
      case_decide as E; [|unfold refcnt; lia]. subst key.
      pose proof (H (net.String ip)) as Hip.
      rewrite count_key_cons, decide_True in Hip by done.
      fold (refcnt a (net.String ip)).
      apply wrap_int_id. unfold min_int, max_int in *. lia. }
    rewrite deleteLoop_cons.
    destruct (_ >? 0).
    + intros key. unfold refcnt. cbn [ipRefcnt]. rewrite Hdec.
      rewrite occurrences_fold. cbn [ips]. rewrite <- occurrences_fold.
      specialize (H key). rewrite count_key_cons in H.
      case_decide; lia.
    + apply IH. intros key. unfold refcnt. cbn [ipRefcnt]. rewrite Hdec.
      rewrite occurrences_fold. cbn [ips]. rewrite <- occurrences_fold.
      specialize (H key). rewrite count_key_cons in H.
      case_decide; lia.
Qed.

Lemma DeleteBalancer_counted n name a :
  Z.of_nat n ≤ max_int → counted n a → counted n (DeleteBalancer name a).
Proof.
  intros Hn H. unfold DeleteBalancer.
  destruct (ips a !! name) as [l|] eqn:E; [|done].
  apply deleteLoop_counted; [done|]. intros key. specialize (H key).
  rewrite (occurrences_delete name l a key E) in H.
  unfold refcnt in *. cbn [ipRefcnt]. lia.
Qed.

Lemma SetBalancer_refcnt n name ip a key :
  Z.of_nat n < max_int → counted n a →
  refcnt (SetBalancer name ip a) key
  = refcnt a key + (if decide (net.String ip = key) then 1 else 0).
Proof.
  intros Hn H. unfold refcnt at 1. cbn [SetBalancer ipRefcnt].
  rewrite refcnt_of_insert. case_decide as E; [|unfold refcnt; lia].
  subst key. specialize (H (net.String ip)).
  apply wrap_int_id. unfold min_int, max_int in *. lia.
Qed.

Lemma SetBalancer_counted n name ip a :
  Z.of_nat (S n) ≤ max_int → counted n a →
  counted (S n) (SetBalancer name ip a).
Proof.
  intros Hn H key.
  rewrite (SetBalancer_refcnt n) by (done || lia).
  rewrite occurrences_SetBalancer. specialize (H key). case_decide; lia.
Qed.

Lemma same_registry_counted n a a' :
  same_registry a a' → counted n a → counted n a'.
Proof.
  intros [Hips Hcnt] H key. unfold refcnt. rewrite occurrences_fold.
  rewrite Hips, Hcnt. apply H.
Qed.

Lemma scanInterface_registry ifi keepARP keepNDP a :
  same_registry a (scan_state (scanInterface ifi keepARP keepNDP a)).
Proof.
  unfold scanInterface, same_registry.
  repeat (match goal with
          | |- context [match ?x with _ => _ end] => destruct x
          end; simpl; try done).
Qed.

Lemma scanLoop_registry ifs keepARP keepNDP a :
  same_registry a (scan_state (scanLoop ifs keepARP keepNDP a)).
Proof.
  revert keepARP keepNDP a.
  induction ifs as [|ifi ifs IH]; intros keepARP keepNDP a; [done|].
  cbn [scanLoop].
  pose proof (scanInterface_registry ifi keepARP keepNDP a) as H.
  destruct (scanInterface ifi keepARP keepNDP a) as [kA kN a1|a1];
    simpl in H; [|done].
  destruct (IH kA kN a1) as [H1 H2]. destruct H as [H3 H4].
  split; congruence.
Qed.

Lemma updateInterfaces_registry ifs a :
  same_registry a (updateInterfaces ifs a).
Proof.
  unfold updateInterfaces. destruct ifs as [ifs|]; [|done].
  pose proof (scanLoop_registry ifs ∅ ∅ a) as H.
  by destruct (scanLoop ifs ∅ ∅ a).
Qed.

Lemma gratuitous_registry ip a : same_registry a (gratuitous ip a).
Proof.
  unfold gratuitous. destruct (_ <=? 0); [done|]. by destruct (net.To4 ip).
Qed.

Lemma reachable_counted n a :
  reachable n a → Z.of_nat n ≤ max_int → counted n a.
Proof.
  induction 1 as [|n a name ip _ IH|n a name _ IH|n a ifs _ IH|n a ip _ IH
                 |n a ip rest _ IH _]; intros Hn.
  - intros key. rewrite occurrences_fold. unfold refcnt, refcnt_of. simpl.
    rewrite map_fold_empty, lookup_empty. simpl. lia.
  - apply SetBalancer_counted; [done|]. apply IH. lia.
  - apply DeleteBalancer_counted; auto.
  - eapply same_registry_counted; [apply updateInterfaces_registry|auto].
  - eapply same_registry_counted; [apply gratuitous_registry|auto].
  - eapply same_registry_counted; [|apply IH, Hn]. done.
Qed.

(** ** [SetBalancer] *)

(** C5 - in every reachable state, [SetBalancer(name, ip)] appends ip to the
    list of name and adds one to the count of ip; every NDP responder gets one
    [Watch(ip)] when the count of ip was zero, and no responder gets any call
    when it was not; and ip is put on the channel of the scheduler in both
    cases.  (The count is a Go [int]: the statement is for fewer than
    [max_int] calls of [SetBalancer].) *)
Theorem SetBalancer_spec n a name ip :
  reachable n a → Z.of_nat n < max_int →
  ips (SetBalancer name ip a) !! name = Some (ips_of a name ++ [ip])
  ∧ (∀ other, other ≠ name →
       ips (SetBalancer name ip a) !! other = ips a !! other)
  ∧ refcnt (SetBalancer name ip a) (net.String ip)
    = refcnt a (net.String ip) + 1
  ∧ (refcnt a (net.String ip) = 0 →
       ∀ i, ndps (SetBalancer name ip a) !! i
            = ndpDo (NdpWatch ip) <$> ndps a !! i)
  ∧ (refcnt a (net.String ip) ≠ 0 → ndps (SetBalancer name ip a) = ndps a)
  ∧ arps (SetBalancer name ip a) = arps a
  ∧ spamCh (SetBalancer name ip a) = spamCh a ++ [ip].
Proof.
  intros Hreach Hn.
  assert (Hc : counted n a) by (apply reachable_counted; [done|lia]).
  pose proof (SetBalancer_refcnt n name ip a (net.String ip) Hn Hc) as Hcnt.
  rewrite decide_True in Hcnt by done.
  split_and!.
  - cbn [SetBalancer ips]. apply lookup_insert_eq.
  - intros other Hne. cbn [SetBalancer ips]. by apply lookup_insert_ne.
  - done.
  - intros Hzero i. unfold refcnt in Hcnt at 1. cbn [SetBalancer ipRefcnt] in Hcnt.
    cbn [SetBalancer ndps]. rewrite Hcnt, Hzero. simpl. apply lookup_fmap.
  - intros Hpos. unfold refcnt in Hcnt at 1. cbn [SetBalancer ipRefcnt] in Hcnt.
    cbn [SetBalancer ndps]. rewrite Hcnt.
    pose proof (Hc (net.String ip)) as Hge.
    destruct (Z.gtb_spec (refcnt a (net.String ip) + 1) 1); [done|lia].
  - done.
  - done.
Qed.

Lemma SetBalancer_spec_witness :
  reachable 1 (SetBalancer "svc-a" ip_10_0_0_1 (updateInterfaces (Some [eth0]) New))
  ∧ Z.of_nat 1 < max_int
  ∧ refcnt (SetBalancer "svc-b" ip_10_0_0_1
              (SetBalancer "svc-a" ip_10_0_0_1
                 (updateInterfaces (Some [eth0]) New)))
           (net.String ip_10_0_0_1) = 2
  ∧ ndps (SetBalancer "svc-b" ip_10_0_0_1
            (SetBalancer "svc-a" ip_10_0_0_1
               (updateInterfaces (Some [eth0]) New)))
    = ndps (SetBalancer "svc-a" ip_10_0_0_1 (updateInterfaces (Some [eth0]) New)).
Proof.
  assert (H1 : reachable 1 (SetBalancer "svc-a" ip_10_0_0_1
                              (updateInterfaces (Some [eth0]) New))).
  { apply reach_SetBalancer, reach_updateInterfaces, reach_New. }
  assert (H2 : Z.of_nat 1 < max_int) by reflexivity.
  destruct (SetBalancer_spec 1 _ "svc-b" ip_10_0_0_1 H1 H2)
    as (_ & _ & Hcnt & _ & Hshared & _).
  split_and!; [exact H1|exact H2| |].
  - rewrite Hcnt. reflexivity.
  - apply Hshared. vm_compute. intros E. discriminate E.
Defined.

Example SetBalancer_first_reference :
  ndps (SetBalancer "svc-c" ip_2001_db8__1 (updateInterfaces (Some [eth0]) New)) !! 2
  = Some (mkNdp "eth0" [NdpWatch ip_2001_db8__1])
  ∧ spamCh (SetBalancer "svc-c" ip_2001_db8__1
              (SetBalancer "svc-c" ip_2001_db8__1 New))
    = [ip_2001_db8__1; ip_2001_db8__1].
Proof. split; reflexivity. Qed.

(** ** The tracker and the NDP responders it creates *)

Lemma ndps_grown_refl a : ndps_grown a a.
Proof. intros i. by left. Qed.

Lemma ndps_grown_trans a1 a2 a3 :
  ndps_grown a1 a2 → ndps_grown a2 a3 → ndps_grown a1 a3.
Proof.
  intros H12 H23 i.
  destruct (H23 i) as [E23|[N2 [ifname E3]]], (H12 i) as [E12|[N1 [ifname' E2]]].
  - left. congruence.
  - right. split; [done|]. exists ifname'. congruence.
  - right. split; [congruence|]. by exists ifname.
  - congruence.
Qed.

Lemma scanInterface_ndps ifi keepARP keepNDP a :
  ndps_grown a (scan_state (scanInterface ifi keepARP keepNDP a)).
Proof.
  unfold scanInterface.
  destruct (Addrs ifi) as [addrs|]; [|apply ndps_grown_refl].
  destruct (_ =? 0); [apply ndps_grown_refl|].
  destruct (hasMaster ifi); [apply ndps_grown_refl|].
  destruct (match sysFlags ifi with Some _ => _ | None => _ end);
    [apply ndps_grown_refl|].
  set (keep := scanAddrs ifi addrs keepARP keepNDP).
  destruct (_ && negb (arpOpens ifi)); [apply ndps_grown_refl|].
  set (a1 := if _ && _ then _ else a).
  assert (H1 : ndps a1 = ndps a) by (subst a1; by destruct (_ && _)).
  destruct (_ && negb (ndpOpens ifi)); cbn [scan_state].
  { intros i. left. by rewrite H1. }
  destruct (bool_decide (Index ifi ∈ keep.2)); cbn [andb];
    [|intros i; left; by rewrite H1].
  case_bool_decide as Hnone; [|intros i; left; by rewrite H1].
  intros i. cbn [ndps]. destruct (decide (i = Index ifi)) as [->|Hne].
  - right. rewrite <- H1. split; [done|].
    exists (Name ifi). by rewrite lookup_insert_eq.
  - left. rewrite lookup_insert_ne by done. by rewrite H1.
Qed.

Lemma scanLoop_ndps ifs keepARP keepNDP a :
  ndps_grown a (scan_state (scanLoop ifs keepARP keepNDP a)).
Proof.
  revert keepARP keepNDP a.
  induction ifs as [|ifi ifs IH]; intros keepARP keepNDP a;
    [apply ndps_grown_refl|].
  cbn [scanLoop].
  pose proof (scanInterface_ndps ifi keepARP keepNDP a) as H.
  destruct (scanInterface ifi keepARP keepNDP a) as [kA kN a1|a1];
    simpl in H; [|done].
  eapply ndps_grown_trans; [exact H|apply IH].
Qed.

(** C4, as the code has it - a scan of the tracker calls no method of an NDP
    responder: the responder it creates for an interface is stored with no
    call made on it, [Watch] included, whatever addresses the registry holds,
    and a responder that is kept is the one that was there. *)
Theorem updateInterfaces_calls_no_watch ifs a i r :
  ndps (updateInterfaces ifs a) !! i = Some r →
  ndps a !! i = Some r ∨ (ndps a !! i = None ∧ ndpCalls r = []).
Proof.
  unfold updateInterfaces. destruct ifs as [ifs|]; [|by left].
  pose proof (scanLoop_ndps ifs ∅ ∅ a) as H.
  destruct (scanLoop ifs ∅ ∅ a) as [kA kN a1|a1]; simpl in H; cbn [ndps].
  - intros [Hr _]%map_lookup_filter_Some.
    destruct (H i) as [E|[N [ifname E]]].
    + left. congruence.
    + right. split; [done|]. rewrite Hr in E. by injection E as ->.
  - intros Hr. destruct (H i) as [E|[N [ifname E]]].
    + left. congruence.
    + right. split; [done|]. rewrite Hr in E. by injection E as ->.
Qed.

Lemma updateInterfaces_calls_no_watch_witness :
  ndps (updateInterfaces (Some [eth0]) claimed_ipv6) !! 2
  = Some (mkNdp "eth0" [])
  ∧ (ndps claimed_ipv6 !! 2 = Some (mkNdp "eth0" [])
     ∨ (ndps claimed_ipv6 !! 2 = None ∧ ndpCalls (mkNdp "eth0" []) = [])).
Proof.
  assert (H : ndps (updateInterfaces (Some [eth0]) claimed_ipv6) !! 2
              = Some (mkNdp "eth0" [])) by reflexivity.
  split; [exact H|].
  exact (updateInterfaces_calls_no_watch (Some [eth0]) claimed_ipv6 2 _ H).
Defined.

(** C4, as stated, fails: 2001:db8::1 is an IPv6 address with a positive
    count when the tracker creates the NDP responder of eth0, and the new
    responder is not asked to watch it. *)
Lemma updateInterfaces_rewatch_counterexample :
  ndps claimed_ipv6 !! 2 = None
  ∧ net.To4 ip_2001_db8__1 = None
  ∧ 0 < refcnt claimed_ipv6 (net.String ip_2001_db8__1)
  ∧ shouldAnnounce ip_2001_db8__1 claimed_ipv6 = dropReasonNone
  ∧ ∃ r, ndps (updateInterfaces (Some [eth0]) claimed_ipv6) !! 2 = Some r
         ∧ NdpWatch ip_2001_db8__1 ∉ ndpCalls r.
Proof.
  split_and!; [reflexivity..|].
  exists (mkNdp "eth0" []). split; [reflexivity|]. apply not_elem_of_nil.
Qed.

(** ** The counts after an early return of [DeleteBalancer] *)

(** C1 - after these four calls no name list holds 2001:db8::1 and its count
    is still 1: the count is not the number of occurrences.  The loop of
    [DeleteBalancer] returned at 10.0.0.1, which "svc-b" still uses, before
    it reached 2001:db8::1. *)
Theorem refcount_stale_after_early_return :
  ips after_partial_delete = {["svc-b" := [ip_10_0_0_1]]}
  ∧ occurrences after_partial_delete (net.String ip_2001_db8__1) = 0%nat
  ∧ refcnt after_partial_delete (net.String ip_2001_db8__1) = 1
  ∧ occurrences after_partial_delete (net.String ip_10_0_0_1) = 1%nat
  ∧ refcnt after_partial_delete (net.String ip_10_0_0_1) = 1.
Proof. split_and!; reflexivity. Qed.

(** C3 - in the same state, [shouldAnnounce] refuses 2001:db8::1, which no
    name lists, while its count is positive, so that [gratuitous] would still
    send for it. *)
Theorem shouldAnnounce_differs_from_refcount :
  reachable 3 after_partial_delete
  ∧ shouldAnnounce ip_2001_db8__1 after_partial_delete = dropReasonAnnounceIP
  ∧ 0 < refcnt after_partial_delete (net.String ip_2001_db8__1)
  ∧ AnnounceName "svc-a" after_partial_delete = false.
Proof.
  split_and!; [|reflexivity..].
  apply reach_DeleteBalancer.
  apply (reach_SetBalancer 2 _ "svc-a" ip_2001_db8__1).
  apply (reach_SetBalancer 1 _ "svc-b" ip_10_0_0_1).
  apply (reach_SetBalancer 0 _ "svc-a" ip_10_0_0_1).
  apply reach_New.
Qed.

(** ** The scenarios of the specification *)

(** A shared address: the second claim counts, does not watch again, and is
    put on the channel again; the release of one of the two services keeps
    the address announced and unwatches nothing. *)
Example scenario_shared_ip :
  refcnt (run [OpSet "svc-a" ip_10_0_0_1; OpSet "svc-b" ip_10_0_0_1]
              (updateInterfaces (Some [eth0]) New)) "10.0.0.1" = 2
  ∧ ndps (run [OpSet "svc-a" ip_10_0_0_1; OpSet "svc-b" ip_10_0_0_1]
              (updateInterfaces (Some [eth0]) New)) !! 2
    = Some (mkNdp "eth0" [NdpWatch ip_10_0_0_1])
  ∧ spamCh (run [OpSet "svc-a" ip_10_0_0_1; OpSet "svc-b" ip_10_0_0_1]
                (updateInterfaces (Some [eth0]) New))
    = [ip_10_0_0_1; ip_10_0_0_1]
  ∧ refcnt (run [OpSet "svc-a" ip_10_0_0_1; OpSet "svc-b" ip_10_0_0_1;
                 OpDelete "svc-a"]
                (updateInterfaces (Some [eth0]) New)) "10.0.0.1" = 1
  ∧ shouldAnnounce ip_10_0_0_1
      (run [OpSet "svc-a" ip_10_0_0_1; OpSet "svc-b" ip_10_0_0_1;
            OpDelete "svc-a"]
           (updateInterfaces (Some [eth0]) New)) = dropReasonNone
  ∧ ndps (run [OpSet "svc-a" ip_10_0_0_1; OpSet "svc-b" ip_10_0_0_1;
               OpDelete "svc-a"]
              (updateInterfaces (Some [eth0]) New)) !! 2
    = Some (mkNdp "eth0" [NdpWatch ip_10_0_0_1]).
Proof. split_and!; reflexivity. Qed.

(** A full release during the spam window: the scheduler still holds the
    entry and calls [gratuitous] on the tick, and no responder is asked for a
    frame. *)
Example scenario_release_during_spam :
  (spamTick (2 * Second) [("10.0.0.1"%string, 5 * Second)]
            (mkSpam {["10.0.0.1" := 5 * Second]} (Some (1100 * Millisecond)))).2
  = [net.IPv4 x0a x00 x00 x01]
  ∧ gratuitousAll [net.IPv4 x0a x00 x00 x01] released_10_0_0_1
    = released_10_0_0_1
  ∧ arps released_10_0_0_1 !! 2 = Some (mkArp "eth0" [])
  ∧ ndps released_10_0_0_1 !! 2
    = Some (mkNdp "eth0" [NdpWatch ip_10_0_0_1; NdpUnwatch ip_10_0_0_1]).
Proof. split_and!; reflexivity. Qed.

(** One turn of the scheduler on a newly claimed address: the frame goes out
    in the turn that takes the address from the channel. *)
Example scenario_single_claim :
  spamRecv 0 spamInit
    (SetBalancer "svc-a" ip_10_0_0_1 (updateInterfaces (Some [eth0]) New))
  = Some (mkSpam {["10.0.0.1" := 5 * Second]} (Some (1100 * Millisecond)),
          mkAnnounce {[2 := mkArp "eth0" [ArpGratuitous ip_10_0_0_1]]}
                     {[2 := mkNdp "eth0" [NdpWatch ip_10_0_0_1]]}
                     {["svc-a" := [ip_10_0_0_1]]}
                     {["10.0.0.1" := 1]} []).
Proof. reflexivity. Qed.

(** * Further properties of the announcer *)

(** ** The registry: names, counts and [shouldAnnounce] *)

(** Addresses that [Equal] identifies have the same textual form, and so the
    same count. *)
Lemma Equal_String (x y : net.IP) :
  net.Equal x y = true → net.String x = net.String y.
Proof.
  unfold net.Equal. case_bool_decide as Hlen.
  { intros ->%bool_decide_eq_true. done. }
  destruct (bool_decide (length x = net.IPv4len)
            && bool_decide (length y = net.IPv6len)) eqn:E1.
  - apply andb_true_iff in E1 as [_ Hy%bool_decide_eq_true].
    intros [Hpre%bool_decide_eq_true ->%bool_decide_eq_true]%andb_true_iff.
    unfold net.IPv6len in Hy.
    do 16 (destruct y as [|? y]; [discriminate Hy|]).
    destruct y; [|discriminate Hy].
    injection Hpre as -> -> -> -> -> -> -> -> -> -> -> ->. reflexivity.
  - destruct (bool_decide (length x = net.IPv6len)
              && bool_decide (length y = net.IPv4len)) eqn:E2; [|done].
    apply andb_true_iff in E2 as [Hx%bool_decide_eq_true _].
    intros [Hpre%bool_decide_eq_true <-%bool_decide_eq_true]%andb_true_iff.
    unfold net.IPv6len in Hx.
    do 16 (destruct x as [|? x]; [discriminate Hx|]).
    destruct x; [|discriminate Hx].
    injection Hpre as -> -> -> -> -> -> -> -> -> -> -> ->. reflexivity.
Qed.

Lemma Equal_refl (x : net.IP) : net.Equal x x = true.
Proof.
  unfold net.Equal. rewrite bool_decide_eq_true_2 by done.
  by apply bool_decide_eq_true.
Qed.

Lemma shouldAnnounce_None ip a :
  shouldAnnounce ip a = dropReasonNone
  ↔ ∃ name l i, ips a !! name = Some l ∧ i ∈ l ∧ net.Equal i ip = true.
Proof.
  unfold shouldAnnounce.
  destruct (existsb _ (map_to_list (ips a))) eqn:E.
  - split; [intros _|done].
    apply existsb_exists in E as ([name l] & Hin & Hl).
    apply existsb_exists in Hl as (i & Hi & Heq).
    exists name, l, i. split_and!; [|by apply list_elem_of_In|done].
    by apply elem_of_map_to_list, list_elem_of_In.
  - split; [done|]. intros (name & l & i & Hl & Hi & Heq).
    assert (existsb (λ entry : string * list net.IP,
                       existsb (λ i, net.Equal i ip) entry.2)
                    (map_to_list (ips a)) = true) as E'; [|congruence].
    apply existsb_exists. exists (name, l). split.
    + by apply list_elem_of_In, elem_of_map_to_list.
    + apply existsb_exists. exists i. split; [by apply list_elem_of_In|done].
Qed.

Lemma count_key_elem i l : i ∈ l → (1 ≤ count_key (net.String i) l)%nat.
Proof.
  induction 1 as [i l|i j l _ IH]; rewrite count_key_cons.
  - rewrite decide_True by done. lia.
  - lia.
Qed.

Lemma occurrences_listed a name l i :
  ips a !! name = Some l → i ∈ l → (1 ≤ occurrences a (net.String i))%nat.
Proof.
  intros Hl Hi. rewrite (occurrences_delete name l a _ Hl).
  pose proof (count_key_elem i l Hi). lia.
Qed.

(** X1 - after n calls of [SetBalancer], mixed with any other activity, the
    count of every address is at least the number of positions of the name
    lists that hold it, and at most n; in particular it is never negative.
    (The count is a Go [int]: n is at most [max_int].) *)
Theorem refcount_bounds n a key :
  reachable n a → Z.of_nat n ≤ max_int →
  Z.of_nat (occurrences a key) ≤ refcnt a key ≤ Z.of_nat n.
Proof. intros Hr Hn. by apply reachable_counted. Qed.

Lemma refcount_bounds_witness :
  reachable 3 after_partial_delete ∧ Z.of_nat 3 ≤ max_int
  ∧ Z.of_nat (occurrences after_partial_delete "2001:db8::1")
    ≤ refcnt after_partial_delete "2001:db8::1" ≤ Z.of_nat 3.
Proof.
  assert (H1 : reachable 3 after_partial_delete).
  { apply reach_DeleteBalancer.
    apply (reach_SetBalancer 2 _ "svc-a" ip_2001_db8__1).
    apply (reach_SetBalancer 1 _ "svc-b" ip_10_0_0_1).
    apply (reach_SetBalancer 0 _ "svc-a" ip_10_0_0_1).
    apply reach_New. }
  assert (H2 : Z.of_nat 3 ≤ max_int) by (intros E; discriminate E).
  split; [exact H1|split; [exact H2|]].
  exact (refcount_bounds 3 after_partial_delete "2001:db8::1" H1 H2).
Defined.

(** X2 - in every reachable state, an address that [shouldAnnounce] accepts
    has a positive count: the responders never answer for an address for
    which [gratuitous] would stay silent. *)
Theorem shouldAnnounce_has_refcount n a ip :
  reachable n a → Z.of_nat n ≤ max_int →
  shouldAnnounce ip a = dropReasonNone →
  0 < refcnt a (net.String ip).
Proof.
  intros Hr Hn (name & l & i & Hl & Hi & Heq)%shouldAnnounce_None.
  pose proof (reachable_counted n a Hr Hn (net.String ip)) as [Hocc _].
  pose proof (occurrences_listed a name l i Hl Hi) as H1.
  rewrite (Equal_String i ip Heq) in H1. lia.
Qed.

Lemma shouldAnnounce_has_refcount_witness :
  reachable 3 after_partial_delete ∧ Z.of_nat 3 ≤ max_int
  ∧ shouldAnnounce (net.IPv4 x0a x00 x00 x01) after_partial_delete
    = dropReasonNone
  ∧ 0 < refcnt after_partial_delete (net.String (net.IPv4 x0a x00 x00 x01)).
Proof.
  assert (H1 : reachable 3 after_partial_delete).
  { apply reach_DeleteBalancer.
    apply (reach_SetBalancer 2 _ "svc-a" ip_2001_db8__1).
    apply (reach_SetBalancer 1 _ "svc-b" ip_10_0_0_1).
    apply (reach_SetBalancer 0 _ "svc-a" ip_10_0_0_1).
    apply reach_New. }
  assert (H2 : Z.of_nat 3 ≤ max_int) by (intros E; discriminate E).
  assert (H3 : shouldAnnounce (net.IPv4 x0a x00 x00 x01) after_partial_delete
               = dropReasonNone) by reflexivity.
  split_and!; [exact H1|exact H2|exact H3|].
  exact (shouldAnnounce_has_refcount 3 after_partial_delete _ H1 H2 H3).
Defined.

Lemma DeleteBalancer_ips name a :
  ips (DeleteBalancer name a) = delete name (ips a).
Proof.
  unfold DeleteBalancer. destruct (ips a !! name) as [l|] eqn:E.
  - by rewrite deleteLoop_ips.
  - symmetry. by apply delete_id.
Qed.


Lemma deleteLoop_arps l a : arps (deleteLoop l a) = arps a.
Proof.
  revert a. induction l as [|ip l IH]; intros a; [done|].
  rewrite deleteLoop_cons. destruct (_ >? 0); [done|]. by rewrite IH.
Qed.

(** X3 - once [SetBalancer(name, ip)] has returned, [shouldAnnounce] accepts
    ip and [AnnounceName(name)] is true, and every address that was accepted
    before the call still is. *)
Theorem SetBalancer_announces name ip a :
  shouldAnnounce ip (SetBalancer name ip a) = dropReasonNone
  ∧ AnnounceName name (SetBalancer name ip a) = true
  ∧ (∀ ip', shouldAnnounce ip' a = dropReasonNone →
            shouldAnnounce ip' (SetBalancer name ip a) = dropReasonNone).
Proof.
  split_and!.
  - apply shouldAnnounce_None. exists name, (ips_of a name ++ [ip]), ip.
    split_and!; [apply lookup_insert_eq| |apply Equal_refl].
    apply elem_of_app. right. by apply list_elem_of_singleton.
  - unfold AnnounceName. apply bool_decide_eq_true.
    cbn [SetBalancer ips]. rewrite lookup_insert_eq. by eexists.
  - intros ip' (n & l & i & Hl & Hi & Heq)%shouldAnnounce_None.
    apply shouldAnnounce_None. destruct (decide (n = name)) as [->|Hne].
    + exists name, (ips_of a name ++ [ip]), i.
      split_and!; [apply lookup_insert_eq| |done].
      unfold ips_of. rewrite Hl. apply elem_of_app. by left.
    + exists n, l, i. split_and!; [|done..].
      cbn [SetBalancer ips]. by rewrite lookup_insert_ne.
Qed.

Lemma SetBalancer_announces_witness :
  shouldAnnounce ip_10_0_0_1 claimed_ipv6 = dropReasonAnnounceIP
  ∧ shouldAnnounce ip_2001_db8__1 claimed_ipv6 = dropReasonNone
  ∧ shouldAnnounce ip_2001_db8__1 (SetBalancer "svc-a" ip_10_0_0_1 claimed_ipv6)
    = dropReasonNone.
Proof.
  assert (H : shouldAnnounce ip_2001_db8__1 claimed_ipv6 = dropReasonNone)
    by reflexivity.
  split_and!; [reflexivity|exact H|].
  exact (proj2 (proj2 (SetBalancer_announces "svc-a" ip_10_0_0_1 claimed_ipv6))
           ip_2001_db8__1 H).
Defined.

(** X4 - after [DeleteBalancer(name)], [shouldAnnounce] accepts exactly the
    addresses that another name lists: an address that only name listed is
    refused from then on, whatever its count has become. *)
Theorem DeleteBalancer_announces name ip a :
  shouldAnnounce ip (DeleteBalancer name a) = dropReasonNone
  ↔ ∃ other l i, other ≠ name ∧ ips a !! other = Some l ∧ i ∈ l
                 ∧ net.Equal i ip = true.
Proof.
  rewrite shouldAnnounce_None. rewrite DeleteBalancer_ips. split.
  - intros (n & l & i & [Hne Hl]%lookup_delete_Some & Hi & Heq).
    exists n, l, i. split_and!; done.
  - intros (n & l & i & Hne & Hl & Hi & Heq).
    exists n, l, i. split_and!; [|done..].
    apply lookup_delete_Some. done.
Qed.

(** X5 - the list kept under a name after a sequence of calls of the facade
    holds the addresses of the [SetBalancer] calls on that name since the
    last [DeleteBalancer] on it, in call order and with repetitions; calls on
    other names do not change it. *)
Theorem run_stored name ops a :
  ips_of (run ops a) name = stored name ops (ips_of a name).
Proof.
  revert a. induction ops as [|o ops IH]; intros a; [done|].
  cbn [run stored foldl]. fold (run ops (run_op o a)).
  fold (stored name ops (stored_step name (ips_of a name) o)).
  rewrite IH. f_equal. unfold ips_of. destruct o as [n ip|n]; cbn [run_op stored_step].
  - cbn [SetBalancer ips]. case_decide as E.
    + subst n. by rewrite lookup_insert_eq.
    + by rewrite lookup_insert_ne.
  - rewrite DeleteBalancer_ips. case_decide as E.
    + subst n. by rewrite lookup_delete_eq.
    + by rewrite lookup_delete_ne.
Qed.


(** X8 - a second [DeleteBalancer] on the same name changes nothing: no count
    is decremented twice. *)
Theorem DeleteBalancer_twice name a :
  DeleteBalancer name (DeleteBalancer name a) = DeleteBalancer name a.
Proof.
  unfold DeleteBalancer at 1.
  by rewrite DeleteBalancer_ips, lookup_delete_eq.
Qed.

Lemma DeleteBalancer_announces_witness :
  shouldAnnounce ip_10_0_0_1 (DeleteBalancer "svc-a" shared_first)
  = dropReasonNone.
Proof.
  apply (DeleteBalancer_announces "svc-a" ip_10_0_0_1 shared_first).
  exists "svc-b"%string, [ip_10_0_0_1], ip_10_0_0_1.
  split_and!; [intros E; discriminate E|reflexivity|by left|reflexivity].
Defined.

(** X7 - in a reachable state, [SetBalancer(name, ip)] on a name that has no
    entry, followed by [DeleteBalancer(name)], gives back the map of names
    and every count; the NDP responders have been asked to watch and then to
    unwatch ip when its count was zero, and nothing otherwise; the address
    stays on the channel.  (For fewer than [max_int] calls of
    [SetBalancer].) *)
Theorem SetBalancer_DeleteBalancer n a name ip :
  reachable n a → Z.of_nat n < max_int →
  ips a !! name = None →
  ips (DeleteBalancer name (SetBalancer name ip a)) = ips a
  ∧ (∀ key, refcnt (DeleteBalancer name (SetBalancer name ip a)) key
            = refcnt a key)
  ∧ (refcnt a (net.String ip) = 0 →
       ∀ i, ndps (DeleteBalancer name (SetBalancer name ip a)) !! i
            = (λ r, ndpDo (NdpUnwatch ip) (ndpDo (NdpWatch ip) r))
              <$> ndps a !! i)
  ∧ (refcnt a (net.String ip) ≠ 0 →
       ndps (DeleteBalancer name (SetBalancer name ip a)) = ndps a)
  ∧ arps (DeleteBalancer name (SetBalancer name ip a)) = arps a
  ∧ spamCh (DeleteBalancer name (SetBalancer name ip a)) = spamCh a ++ [ip].
Proof.
  intros Hr Hn Hname.
  assert (Hc : counted n a) by (apply reachable_counted; [done|lia]).
  pose proof (Hc (net.String ip)) as [Hlo Hhi].
  assert (Hlo' : 0 ≤ refcnt a (net.String ip)) by lia.
  assert (Hset : refcnt_of (ipRefcnt (SetBalancer name ip a)) (net.String ip)
                 = refcnt a (net.String ip) + 1).
  { cbn [SetBalancer ipRefcnt]. rewrite refcnt_of_insert, decide_True by done.
    apply wrap_int_id. unfold min_int, max_int in *. lia. }
  assert (Hlist : ips (SetBalancer name ip a) !! name = Some [ip]).
  { cbn [SetBalancer ips]. rewrite lookup_insert_eq. unfold ips_of.
    by rewrite Hname. }
  assert (Hdec : ∀ key,
    refcnt_of (decrement (ipRefcnt (SetBalancer name ip a)) ip) key
    = refcnt a key).
  { intros key. unfold decrement. rewrite Hset. rewrite refcnt_of_insert.
    case_decide as E.
    - subst key. replace (refcnt a (net.String ip) + 1 - 1)
        with (refcnt a (net.String ip)) by lia.
      apply wrap_int_id. unfold min_int, max_int in *. lia.
    - cbn [SetBalancer ipRefcnt]. by rewrite refcnt_of_insert_ne. }
  unfold DeleteBalancer. rewrite Hlist. rewrite deleteLoop_cons.
  cbn [ipRefcnt arps ndps ips spamCh]. rewrite Hdec.
  assert (Hips : delete name (ips (SetBalancer name ip a)) = ips a).
  { cbn [SetBalancer ips]. by apply delete_insert_id. }
  destruct (Z.gtb_spec (refcnt a (net.String ip)) 0) as [Hpos|Hzero].
  - cbn [ips ndps arps spamCh].
    split_and!; [done| |intros E; lia| |done|done].
    + intros key. unfold refcnt at 1. cbn [ipRefcnt]. apply Hdec.
    + intros _. cbn [SetBalancer ndps ipRefcnt] in *. rewrite Hset.
      destruct (Z.gtb_spec (refcnt a (net.String ip) + 1) 1); [done|lia].
  - cbn [deleteLoop ips ndps arps spamCh].
    split_and!; [done| | |intros E; lia|done|done].
    + intros key. unfold refcnt at 1. cbn [ipRefcnt]. apply Hdec.
    + intros _ i. cbn [SetBalancer ndps ipRefcnt] in *. rewrite Hset.
      destruct (Z.gtb_spec (refcnt a (net.String ip) + 1) 1); [lia|].
      rewrite <- map_fmap_compose. apply lookup_fmap.
Qed.

Lemma SetBalancer_DeleteBalancer_witness :
  reachable 1 claimed_ipv6 ∧ Z.of_nat 1 < max_int
  ∧ ips claimed_ipv6 !! "svc-a" = None
  ∧ ips (DeleteBalancer "svc-a" (SetBalancer "svc-a" ip_10_0_0_1 claimed_ipv6))
    = ips claimed_ipv6.
Proof.
  assert (H1 : reachable 1 claimed_ipv6)
    by apply reach_SetBalancer, reach_New.
  assert (H2 : Z.of_nat 1 < max_int) by reflexivity.
  assert (H3 : ips claimed_ipv6 !! "svc-a" = None) by reflexivity.
  split_and!; [exact H1|exact H2|exact H3|].
  exact (proj1 (SetBalancer_DeleteBalancer 1 claimed_ipv6 "svc-a" ip_10_0_0_1
                  H1 H2 H3)).
Defined.

(** X9 - when the addresses kept under a name have distinct textual forms
    and a count of one each, [DeleteBalancer(name)] goes through the whole
    list: every one of them is unwatched on every NDP responder, in the order
    of the list, and ends with a count of zero. *)
Theorem DeleteBalancer_unshared name a l :
  ips a !! name = Some l →
  NoDup (net.String <$> l) →
  (∀ i, i ∈ l → refcnt a (net.String i) = 1) →
  DeleteBalancer name a
  = mkAnnounce (arps a) (unwatchAll l (ndps a)) (delete name (ips a))
               (decrementAll l (ipRefcnt a)) (spamCh a)
  ∧ ∀ i, i ∈ l → refcnt (DeleteBalancer name a) (net.String i) = 0.
Proof.
  intros Hl Hnd Hone.
  assert (Hat : ∀ l1 y l2, l = l1 ++ y :: l2 →
            refcnt_of (decrementAll (l1 ++ [y]) (ipRefcnt a)) (net.String y) = 0).
  { intros l1 y l2 ->. rewrite decrementAll_app. cbn [decrementAll foldl].
    unfold decrement at 1. rewrite refcnt_of_insert, decide_True by done.
    rewrite fmap_app, fmap_cons in Hnd.
    apply NoDup_app in Hnd as (_ & Hnot & _).
    rewrite decrementAll_other.
    - fold (refcnt a (net.String y)). rewrite Hone; [done|].
      apply elem_of_app. right. by left.
    - intros Hin. apply (Hnot _ Hin). by left. }
  assert (Hrel : released (ipRefcnt a) l).
  { intros l1 y l2 E. rewrite (Hat l1 y l2 E). done. }
  assert (Heq : DeleteBalancer name a
    = mkAnnounce (arps a) (unwatchAll l (ndps a)) (delete name (ips a))
                 (decrementAll l (ipRefcnt a)) (spamCh a)).
  { unfold DeleteBalancer. rewrite Hl.
    rewrite <- (app_nil_r l) at 1. by rewrite deleteLoop_released. }
  split; [done|]. intros i Hi. rewrite Heq. unfold refcnt. cbn [ipRefcnt].
  destruct (list_elem_of_split l i Hi) as (l1 & l2 & E).
  pose proof (Hat l1 i l2 E) as H0. subst l.
  replace (l1 ++ i :: l2) with ((l1 ++ [i]) ++ l2) by (by rewrite <- app_assoc).
  rewrite decrementAll_app. rewrite decrementAll_other; [done|].
  rewrite fmap_app, fmap_cons in Hnd.
  apply NoDup_app in Hnd as (_ & _ & Hnd). by apply NoDup_cons in Hnd as [? _].
Qed.

Lemma DeleteBalancer_unshared_witness :
  ips claimed_both !! "svc-c" = Some [ip_2001_db8__1]
  ∧ NoDup (net.String <$> [ip_2001_db8__1])
  ∧ (∀ i, i ∈ [ip_2001_db8__1] → refcnt claimed_both (net.String i) = 1)
  ∧ refcnt (DeleteBalancer "svc-c" claimed_both) (net.String ip_2001_db8__1) = 0.
Proof.
  assert (H1 : ips claimed_both !! "svc-c" = Some [ip_2001_db8__1])
    by reflexivity.
  assert (H2 : NoDup (net.String <$> [ip_2001_db8__1])).
  { apply NoDup_singleton. }
  assert (H3 : ∀ i, i ∈ [ip_2001_db8__1] →
                    refcnt claimed_both (net.String i) = 1).
  { intros i ->%list_elem_of_singleton. reflexivity. }
  split_and!; [exact H1|exact H2|exact H3|].
  apply (proj2 (DeleteBalancer_unshared "svc-c" claimed_both _ H1 H2 H3)).
  by left.
Defined.

(** ** Multicast groups follow the counts *)

Lemma watch_balance_snoc key calls c :
  watch_balance key (calls ++ [c]) = watch_balance key calls + watch_delta key c.
Proof.
  unfold watch_balance.
  induction calls as [|c' calls IH]; cbn [app foldr]; [|rewrite IH]; lia.
Qed.

Lemma deleteLoop_watch n l a :
  Z.of_nat n ≤ max_int →
  (∀ key, Z.of_nat (occurrences a key + count_key key l) ≤ refcnt a key
          ≤ Z.of_nat n) →
  watch_consistent a → watch_consistent (deleteLoop l a).
Proof.
  intros Hn. revert a. induction l as [|ip l IH]; intros a H Hw; [done|].
  assert (Hdec : ∀ key,
    refcnt_of (decrement (ipRefcnt a) ip) key
    = refcnt a key - (if decide (net.String ip = key) then 1 else 0)).
  { intros key. unfold decrement. rewrite refcnt_of_insert.
    case_decide as E; [|unfold refcnt; lia]. subst key.
    pose proof (H (net.String ip)) as Hip.
    rewrite count_key_cons, decide_True in Hip by done.
    fold (refcnt a (net.String ip)).
    apply wrap_int_id. unfold min_int, max_int in *. lia. }
  pose proof (H (net.String ip)) as Hip.
  rewrite count_key_cons, decide_True in Hip by done.
  rewrite deleteLoop_cons.
  destruct (Z.gtb_spec (refcnt_of (decrement (ipRefcnt a) ip) (net.String ip)) 0)
    as [Hgt|Hle]; rewrite Hdec, decide_True in * by done.
  - intros i r key Hr. cbn [ndps] in Hr. unfold refcnt. cbn [ipRefcnt].
    rewrite Hdec, (Hw i r key Hr). case_decide as E; [subst key|by rewrite Z.sub_0_r].
    destruct (Z.ltb_spec 0 (refcnt a (net.String ip))),
             (Z.ltb_spec 0 (refcnt a (net.String ip) - 1)); lia.
  - apply IH.
    + intros key. unfold refcnt. cbn [ipRefcnt]. rewrite Hdec.
      rewrite occurrences_fold. cbn [ips]. rewrite <- occurrences_fold.
      specialize (H key). rewrite count_key_cons in H. case_decide; lia.
    + intros i r' key Hr. cbn [ndps] in Hr. rewrite lookup_fmap in Hr.
      destruct (ndps a !! i) as [r|] eqn:Er; [|done]. injection Hr as <-.
      cbn [ndpDo ndpCalls]. rewrite watch_balance_snoc, (Hw i r key Er).
      unfold refcnt at 2. cbn [ipRefcnt watch_delta]. rewrite Hdec.
      case_decide as E; [subst key|by rewrite Z.sub_0_r, Z.add_0_r].
      destruct (Z.ltb_spec 0 (refcnt a (net.String ip))),
               (Z.ltb_spec 0 (refcnt a (net.String ip) - 1)); lia.
Qed.

(** X10 - the calls of the facade and of [gratuitous] keep the multicast
    groups in step with the counts: when every NDP responder has been asked
    to watch exactly the addresses with a positive count, this is still so
    after [SetBalancer], after [DeleteBalancer] and after [gratuitous].  (In
    reachable states, for fewer than [max_int] calls of [SetBalancer].) *)
Theorem facade_keeps_watch_consistent n a name ip :
  reachable n a → Z.of_nat n < max_int →
  watch_consistent a →
  watch_consistent (SetBalancer name ip a)
  ∧ watch_consistent (DeleteBalancer name a)
  ∧ watch_consistent (gratuitous ip a).
Proof.
  intros Hr Hn Hw.
  assert (Hc : counted n a) by (apply reachable_counted; [done|lia]).
  split_and!.
  - intros i r' key Hr'.
    rewrite (SetBalancer_refcnt n) by done.
    pose proof (Hc (net.String ip)) as [Hlo Hhi].
    pose proof (SetBalancer_refcnt n name ip a (net.String ip) Hn Hc) as Hset.
    rewrite decide_True in Hset by done. unfold refcnt in Hset at 1.
    cbn [SetBalancer ndps ipRefcnt] in Hr', Hset. rewrite Hset in Hr'.
    destruct (Z.gtb_spec (refcnt a (net.String ip) + 1) 1) as [Hpos|Hzero].
    + rewrite (Hw i r' key Hr'). case_decide as E; [subst key|by rewrite Z.add_0_r].
      destruct (Z.ltb_spec 0 (refcnt a (net.String ip))),
               (Z.ltb_spec 0 (refcnt a (net.String ip) + 1)); lia.
    + rewrite lookup_fmap in Hr'.
      destruct (ndps a !! i) as [r|] eqn:Er; [|done]. injection Hr' as <-.
      cbn [ndpDo ndpCalls]. rewrite watch_balance_snoc, (Hw i r key Er).
      cbn [watch_delta].
      case_decide as E; [subst key|by rewrite !Z.add_0_r].
      destruct (Z.ltb_spec 0 (refcnt a (net.String ip))),
               (Z.ltb_spec 0 (refcnt a (net.String ip) + 1)); lia.
  - unfold DeleteBalancer. destruct (ips a !! name) as [l|] eqn:E; [|done].
    apply (deleteLoop_watch n); [lia| |done].
    intros key. pose proof (Hc key) as H.
    rewrite (occurrences_delete name l a key E) in H.
    unfold refcnt in *. cbn [ipRefcnt]. lia.
  - intros i r' key Hr'. rewrite gratuitous_refcnt.
    apply gratuitous_ndps in Hr' as (r & Er & [Hsame|[Hadd _]]).
    + rewrite Hsame. by apply (Hw i).
    + rewrite Hadd, watch_balance_snoc. cbn [watch_delta].
      rewrite Z.add_0_r. by apply (Hw i).
Qed.

Lemma facade_keeps_watch_consistent_witness :
  reachable 0 (updateInterfaces (Some [eth0]) New)
  ∧ Z.of_nat 0 < max_int
  ∧ watch_consistent (updateInterfaces (Some [eth0]) New)
  ∧ watch_consistent
      (SetBalancer "svc-c" ip_2001_db8__1 (updateInterfaces (Some [eth0]) New)).
Proof.
  assert (H1 : reachable 0 (updateInterfaces (Some [eth0]) New))
    by apply reach_updateInterfaces, reach_New.
  assert (H2 : Z.of_nat 0 < max_int) by reflexivity.
  assert (H3 : watch_consistent (updateInterfaces (Some [eth0]) New)).
  { intros i r key Hr.
    change (ndps (updateInterfaces (Some [eth0]) New))
      with (<[2 := mkNdp "eth0" []]> (∅ : gmap Z ndpResponder)) in Hr.
    apply lookup_insert_Some in Hr as [[_ <-]|[_ Hr]]; [reflexivity|].
    by rewrite lookup_empty in Hr. }
  split_and!; [exact H1|exact H2|exact H3|].
  exact (proj1 (facade_keeps_watch_consistent 0 _ "svc-c" ip_2001_db8__1
                  H1 H2 H3)).
Defined.

(** ** The scans of the tracker *)

#[local] Set Warnings "-clear-no-such-hyp".

Lemma arps_grown_refl a : arps_grown a a.
Proof. intros i. by left. Qed.

Lemma arps_grown_trans a1 a2 a3 :
  arps_grown a1 a2 → arps_grown a2 a3 → arps_grown a1 a3.
Proof.
  intros H12 H23 i.
  destruct (H23 i) as [E23|[N2 [ifname E3]]], (H12 i) as [E12|[N1 [ifname' E2]]].
  - left. congruence.
  - right. split; [done|]. exists ifname'. congruence.
  - right. split; [congruence|]. by exists ifname.
  - congruence.
Qed.

Lemma scanInterface_arps ifi keepARP keepNDP a :
  arps_grown a (scan_state (scanInterface ifi keepARP keepNDP a)).
Proof.
  unfold scanInterface.
  destruct (Addrs ifi) as [addrs|]; [|apply arps_grown_refl].
  destruct (_ =? 0); [apply arps_grown_refl|].
  destruct (hasMaster ifi); [apply arps_grown_refl|].
  destruct (match sysFlags ifi with Some _ => _ | None => _ end);
    [apply arps_grown_refl|].
  set (keep := scanAddrs ifi addrs keepARP keepNDP). cbv zeta.
  set (newARP := bool_decide (Index ifi ∈ keep.1)
                 && bool_decide (arps a !! Index ifi = None)).
  destruct (newARP && negb (arpOpens ifi)); [apply arps_grown_refl|].
  assert (H1 : arps_grown a
    (if newARP
     then mkAnnounce (<[Index ifi := newARPResponder (Name ifi)]> (arps a))
                     (ndps a) (ips a) (ipRefcnt a) (spamCh a)
     else a)).
  { destruct newARP eqn:E; [|apply arps_grown_refl].
    apply andb_true_iff in E as [_ Hnone%bool_decide_eq_true].
    intros i. cbn [arps]. destruct (decide (i = Index ifi)) as [->|Hne].
    - right. split; [done|]. exists (Name ifi). by rewrite lookup_insert_eq.
    - left. by rewrite lookup_insert_ne. }
  set (a1 := if newARP then _ else a) in *.
  destruct (_ && negb (ndpOpens ifi)); cbn [scan_state]; [done|].
  destruct (bool_decide (Index ifi ∈ keep.2)
            && bool_decide (ndps a1 !! Index ifi = None)); [|done].
  intros i. destruct (H1 i) as [E|E]; [by left|by right].
Qed.

Lemma scanLoop_arps ifs keepARP keepNDP a :
  arps_grown a (scan_state (scanLoop ifs keepARP keepNDP a)).
Proof.
  revert keepARP keepNDP a.
  induction ifs as [|ifi ifs IH]; intros keepARP keepNDP a;
    [apply arps_grown_refl|].
  cbn [scanLoop].
  pose proof (scanInterface_arps ifi keepARP keepNDP a) as H.
  destruct (scanInterface ifi keepARP keepNDP a) as [kA kN a1|a1];
    simpl in H; [|done].
  eapply arps_grown_trans; [exact H|apply IH].
Qed.

Lemma scanInterface_spamCh ifi keepARP keepNDP a :
  spamCh (scan_state (scanInterface ifi keepARP keepNDP a)) = spamCh a.
Proof.
  unfold scanInterface.
  repeat (match goal with
          | |- context [match ?x with _ => _ end] => destruct x
          end; simpl; try done).
Qed.

Lemma scanLoop_spamCh ifs keepARP keepNDP a :
  spamCh (scan_state (scanLoop ifs keepARP keepNDP a)) = spamCh a.
Proof.
  revert keepARP keepNDP a.
  induction ifs as [|ifi ifs IH]; intros keepARP keepNDP a; [done|].
  cbn [scanLoop].
  pose proof (scanInterface_spamCh ifi keepARP keepNDP a) as H.
  destruct (scanInterface ifi keepARP keepNDP a) as [kA kN a1|a1];
    simpl in H; [|done].
  by rewrite IH.
Qed.

(** X11 - a scan of the tracker touches nothing but the two maps of
    responders: the map of names, the counts and the channel are as before,
    so that [shouldAnnounce] and [AnnounceName] answer as before; and no
    method is called on an ARP responder, a kept one is the one that was
    there and a new one has had no call. *)
Theorem updateInterfaces_keeps_registry ifs a :
  ips (updateInterfaces ifs a) = ips a
  ∧ ipRefcnt (updateInterfaces ifs a) = ipRefcnt a
  ∧ spamCh (updateInterfaces ifs a) = spamCh a
  ∧ (∀ ip, shouldAnnounce ip (updateInterfaces ifs a) = shouldAnnounce ip a)
  ∧ (∀ name, AnnounceName name (updateInterfaces ifs a) = AnnounceName name a)
  ∧ (∀ i r, arps (updateInterfaces ifs a) !! i = Some r →
            arps a !! i = Some r ∨ (arps a !! i = None ∧ arpCalls r = [])).
Proof.
  destruct (updateInterfaces_registry ifs a) as [Hips Hcnt].
  split_and!; [done|done| | | |].
  - unfold updateInterfaces. destruct ifs as [ifs|]; [|done].
    pose proof (scanLoop_spamCh ifs ∅ ∅ a) as H.
    by destruct (scanLoop ifs ∅ ∅ a).
  - intros ip. unfold shouldAnnounce. by rewrite Hips.
  - intros name. unfold AnnounceName. by rewrite Hips.
  - intros i r. unfold updateInterfaces.
    destruct ifs as [ifs|]; [|intros Hr; by left].
    pose proof (scanLoop_arps ifs ∅ ∅ a) as H.
    destruct (scanLoop ifs ∅ ∅ a) as [kA kN a1|a1]; simpl in H; cbn [arps].
    + intros [Hr _]%map_lookup_filter_Some.
      destruct (H i) as [E|[N [ifname E]]].
      * left. congruence.
      * right. split; [done|]. rewrite Hr in E. by injection E as ->.
    + intros Hr. destruct (H i) as [E|[N [ifname E]]].
      * left. congruence.
      * right. split; [done|]. rewrite Hr in E. by injection E as ->.
Qed.

Lemma updateInterfaces_keeps_registry_witness :
  arps (updateInterfaces (Some [eth0]) claimed_ipv6) !! 2
  = Some (mkArp "eth0" [])
  ∧ (arps claimed_ipv6 !! 2 = Some (mkArp "eth0" [])
     ∨ (arps claimed_ipv6 !! 2 = None ∧ arpCalls (mkArp "eth0" []) = [])).
Proof.
  assert (H : arps (updateInterfaces (Some [eth0]) claimed_ipv6) !! 2
              = Some (mkArp "eth0" [])) by reflexivity.
  split; [exact H|].
  destruct (updateInterfaces_keeps_registry (Some [eth0]) claimed_ipv6)
    as (_ & _ & _ & _ & _ & Harp).
  exact (Harp 2 _ H).
Defined.

Lemma scanLoop_returns ifs keepARP keepNDP a ifi :
  ifi ∈ ifs → Addrs ifi = None →
  ∃ a', scanLoop ifs keepARP keepNDP a = Return a'.
Proof.
  intros Hin Hfail. revert keepARP keepNDP a.
  induction Hin as [ifi ifs|ifi ifj ifs _ IH]; intros keepARP keepNDP a;
    cbn [scanLoop].
  - unfold scanInterface. rewrite Hfail. by eexists.
  - destruct (scanInterface ifj keepARP keepNDP a) as [kA kN a1|a1];
      [by apply IH|by eexists].
Qed.

(** X13 - when the addresses of some interface cannot be read, the scan
    returns before its two final loops: no responder is closed or removed,
    every responder that was there is kept as it was, also on interfaces that
    have gone or are not eligible any more. *)
Theorem updateInterfaces_failure_keeps_responders ifs a ifi :
  ifi ∈ ifs → Addrs ifi = None →
  (∀ i r, arps a !! i = Some r → arps (updateInterfaces (Some ifs) a) !! i = Some r)
  ∧ (∀ i r, ndps a !! i = Some r → ndps (updateInterfaces (Some ifs) a) !! i = Some r).
Proof.
  intros Hin Hfail. unfold updateInterfaces.
  destruct (scanLoop_returns ifs ∅ ∅ a ifi Hin Hfail) as [a' Ha'].
  pose proof (scanLoop_arps ifs ∅ ∅ a) as HA.
  pose proof (scanLoop_ndps ifs ∅ ∅ a) as HN.
  rewrite Ha' in *. cbn [scan_state] in *. split.
  - intros i r Hr. destruct (HA i) as [E|[N _]]; congruence.
  - intros i r Hr. destruct (HN i) as [E|[N _]]; congruence.
Qed.

(** An interface whose addresses cannot be read. *)
Lemma updateInterfaces_failure_keeps_responders_witness :
  mkInterface 3 "eth1" 3 None false None true true
    ∈ [mkInterface 3 "eth1" 3 None false None true true]
  ∧ arps (updateInterfaces
            (Some [mkInterface 3 "eth1" 3 None false None true true])
            claimed_both) !! 2
    = Some (mkArp "eth0" []).
Proof.
  assert (H : mkInterface 3 "eth1" 3 None false None true true
                ∈ [mkInterface 3 "eth1" 3 None false None true true])
    by (by left).
  split; [exact H|].
  apply (proj1 (updateInterfaces_failure_keeps_responders _ claimed_both _
                  H eq_refl)).
  reflexivity.
Defined.

Example updateInterfaces_removes_gone :
  arps (updateInterfaces (Some []) claimed_both) = ∅
  ∧ ndps (updateInterfaces (Some []) claimed_both) = ∅
  ∧ updateInterfaces None claimed_both = claimed_both.
Proof. split_and!; reflexivity. Qed.

Lemma scanAddrs_spec ifi addrs keepARP keepNDP j :
  (j ∈ (scanAddrs ifi addrs keepARP keepNDP).1
   ↔ j ∈ keepARP
     ∨ (j = Index ifi ∧ negb (Z.land (Flags ifi) FlagBroadcast =? 0) = true
        ∧ existsb hasIPv4 addrs = true))
  ∧ (j ∈ (scanAddrs ifi addrs keepARP keepNDP).2
     ↔ j ∈ keepNDP ∨ (j = Index ifi ∧ existsb hasLinkLocal addrs = true)).
Proof.
  unfold scanAddrs. revert keepARP keepNDP.
  induction addrs as [|ad addrs IH]; intros keepARP keepNDP; cbn [foldl existsb].
  - cbn [fst snd]. split; split; try tauto; intros [?|(_ & ?)]; try done.
    by destruct H as [? ?].
  - destruct ad as [ip|]; cbn [hasIPv4 hasLinkLocal orb fst snd].
    + destruct (IH (if bool_decide (is_Some (net.To4 ip))
                       && negb (Z.land (Flags ifi) FlagBroadcast =? 0)
                    then {[Index ifi]} ∪ keepARP else keepARP)
                   (if net.IsLinkLocalUnicast ip
                    then {[Index ifi]} ∪ keepNDP else keepNDP)) as [-> ->].
      destruct (bool_decide (is_Some (net.To4 ip))),
               (negb (Z.land (Flags ifi) FlagBroadcast =? 0)),
               (net.IsLinkLocalUnicast ip),
               (existsb hasIPv4 addrs), (existsb hasLinkLocal addrs);
        cbn [andb orb]; split; set_solver.
    + apply IH.
Qed.

Lemma scanInterface_complete ifi keepARP keepNDP a :
  scans_well ifi →
  (∀ j, j ∈ keepARP → is_Some (arps a !! j)) →
  (∀ j, j ∈ keepNDP → is_Some (ndps a !! j)) →
  ∃ keepARP' keepNDP' a',
    scanInterface ifi keepARP keepNDP a = Continue keepARP' keepNDP' a'
    ∧ (∀ j, j ∈ keepARP' ↔ j ∈ keepARP ∨ (arpEligible ifi = true ∧ Index ifi = j))
    ∧ (∀ j, j ∈ keepNDP' ↔ j ∈ keepNDP ∨ (ndpEligible ifi = true ∧ Index ifi = j))
    ∧ (∀ j, is_Some (arps a' !! j)
            ↔ is_Some (arps a !! j) ∨ (arpEligible ifi = true ∧ Index ifi = j))
    ∧ (∀ j, is_Some (ndps a' !! j)
            ↔ is_Some (ndps a !! j) ∨ (ndpEligible ifi = true ∧ Index ifi = j)).
Proof.
  intros ([addrs Haddrs] & HarpOK & HndpOK) HkA HkN.
  unfold scanInterface, arpEligible, ndpEligible, skipped.
  rewrite Haddrs, HarpOK, HndpOK.
  change (default [] (Some addrs)) with addrs. cbn [negb].
  destruct (Z.land (Flags ifi) FlagUp =? 0); cbn [orb negb andb].
  { exists keepARP, keepNDP, a. split_and!; [done|..]; intros j; naive_solver. }
  destruct (hasMaster ifi); cbn [orb negb andb].
  { exists keepARP, keepNDP, a. split_and!; [done|..]; intros j; naive_solver. }
  destruct (match sysFlags ifi with Some _ => _ | None => _ end);
    cbn [orb negb andb].
  { exists keepARP, keepNDP, a. split_and!; [done|..]; intros j; naive_solver. }
  rewrite !andb_false_r. cbv zeta.
  set (keep := scanAddrs ifi addrs keepARP keepNDP).
  assert (Hk1 : ∀ j, j ∈ keep.1 ↔ j ∈ keepARP
            ∨ (negb (Z.land (Flags ifi) FlagBroadcast =? 0)
               && existsb hasIPv4 addrs = true ∧ Index ifi = j)).
  { intros j. subst keep.
    rewrite (proj1 (scanAddrs_spec ifi addrs keepARP keepNDP j)).
    rewrite andb_true_iff. naive_solver. }
  assert (Hk2 : ∀ j, j ∈ keep.2 ↔ j ∈ keepNDP
            ∨ (existsb hasLinkLocal addrs = true ∧ Index ifi = j)).
  { intros j. subst keep.
    rewrite (proj2 (scanAddrs_spec ifi addrs keepARP keepNDP j)).
    naive_solver. }
  clearbody keep.
  eexists _, _, _. split; [reflexivity|]. split; [exact Hk1|].
  split; [exact Hk2|]. split.
  - intros j.
    assert (Hndp : ∀ a1 : Announce,
      arps (if bool_decide (Index ifi ∈ keep.2)
               && bool_decide (ndps a1 !! Index ifi = None)
            then mkAnnounce (arps a1)
                   (<[Index ifi := newNDPResponder (Name ifi)]> (ndps a1))
                   (ips a1) (ipRefcnt a1) (spamCh a1)
            else a1) = arps a1).
    { intros a1. destruct (bool_decide _ && bool_decide _); reflexivity. }
    rewrite Hndp. clear Hndp.
    destruct (bool_decide (Index ifi ∈ keep.1)
              && bool_decide (arps a !! Index ifi = None)) eqn:E.
    + apply andb_true_iff in E as [Hin%bool_decide_eq_true Hnone%bool_decide_eq_true].
      cbn [arps]. apply Hk1 in Hin as [Hin|[Hel _]].
      { apply HkA in Hin as [? Hin]. congruence. }
      rewrite Hel. destruct (decide (Index ifi = j)) as [<-|Hne].
      * rewrite lookup_insert_eq. naive_solver.
      * rewrite lookup_insert_ne by done. naive_solver.
    + split; [by left|]. intros [H|[Hel <-]]; [done|].
      apply andb_false_iff in E as [E|E]; apply bool_decide_eq_false in E.
      * destruct E. apply Hk1. by right.
      * by apply not_eq_None_Some.
  - intros j.
    set (a1 := if bool_decide (Index ifi ∈ keep.1)
                  && bool_decide (arps a !! Index ifi = None)
               then _ else a).
    assert (H1 : ndps a1 = ndps a).
    { subst a1. destruct (bool_decide _ && bool_decide _); reflexivity. }
    clearbody a1.
    destruct (bool_decide (Index ifi ∈ keep.2)
              && bool_decide (ndps a1 !! Index ifi = None)) eqn:E.
    + apply andb_true_iff in E as [Hin%bool_decide_eq_true Hnone%bool_decide_eq_true].
      cbn [ndps]. rewrite H1 in *. apply Hk2 in Hin as [Hin|[Hel _]].
      { apply HkN in Hin as [? Hin]. congruence. }
      rewrite Hel. destruct (decide (Index ifi = j)) as [<-|Hne].
      * rewrite lookup_insert_eq. naive_solver.
      * rewrite lookup_insert_ne by done. naive_solver.
    + rewrite H1 in *. split; [by left|]. intros [H|[Hel <-]]; [done|].
      apply andb_false_iff in E as [E|E]; apply bool_decide_eq_false in E.
      * destruct E. apply Hk2. by right.
      * by apply not_eq_None_Some.
Qed.

Lemma scanLoop_complete ifs keepARP keepNDP a :
  (∀ ifi, ifi ∈ ifs → scans_well ifi) →
  (∀ j, j ∈ keepARP → is_Some (arps a !! j)) →
  (∀ j, j ∈ keepNDP → is_Some (ndps a !! j)) →
  ∃ keepARP' keepNDP' a',
    scanLoop ifs keepARP keepNDP a = Continue keepARP' keepNDP' a'
    ∧ (∀ j, j ∈ keepARP'
            ↔ j ∈ keepARP
              ∨ ∃ ifi, ifi ∈ ifs ∧ arpEligible ifi = true ∧ Index ifi = j)
    ∧ (∀ j, j ∈ keepNDP'
            ↔ j ∈ keepNDP
              ∨ ∃ ifi, ifi ∈ ifs ∧ ndpEligible ifi = true ∧ Index ifi = j)
    ∧ (∀ j, j ∈ keepARP' → is_Some (arps a' !! j))
    ∧ (∀ j, j ∈ keepNDP' → is_Some (ndps a' !! j)).
Proof.
  revert keepARP keepNDP a.
  induction ifs as [|ifi ifs IH]; intros keepARP keepNDP a Hok HkA HkN.
  - exists keepARP, keepNDP, a. cbn [scanLoop].
    split_and!; [done| | |done|done]; intros j; split; try tauto;
      intros [?|(? & []%elem_of_nil & _)]; done.
  - destruct (scanInterface_complete ifi keepARP keepNDP a)
      as (kA1 & kN1 & a1 & E1 & HA1 & HN1 & Harp1 & Hndp1);
      [apply Hok; by left|done|done|].
    destruct (IH kA1 kN1 a1) as (kA2 & kN2 & a2 & E2 & HA2 & HN2 & Harp2 & Hndp2).
    + intros ifj Hj. apply Hok. by right.
    + intros j Hj. apply Harp1. apply HA1 in Hj as [Hj|Hj]; [left; by apply HkA|by right].
    + intros j Hj. apply Hndp1. apply HN1 in Hj as [Hj|Hj]; [left; by apply HkN|by right].
    + exists kA2, kN2, a2. cbn [scanLoop]. rewrite E1.
      split_and!; [done| | |done|done]; intros j.
      * rewrite HA2, HA1. setoid_rewrite elem_of_cons. naive_solver.
      * rewrite HN2, HN1. setoid_rewrite elem_of_cons. naive_solver.
Qed.

(** X12 - after a scan in which nothing fails, the responders are those of
    the eligible interfaces: there is an ARP responder at an index exactly
    when the scan saw an interface with that index that is up, has no master
    and no NOARP flag, can broadcast and has an IPv4 address; and an NDP
    responder exactly when it saw such an interface with a link-local unicast
    address. *)
Theorem updateInterfaces_matches_eligibility ifs a :
  (∀ ifi, ifi ∈ ifs → scans_well ifi) →
  (∀ j, is_Some (arps (updateInterfaces (Some ifs) a) !! j)
        ↔ ∃ ifi, ifi ∈ ifs ∧ arpEligible ifi = true ∧ Index ifi = j)
  ∧ (∀ j, is_Some (ndps (updateInterfaces (Some ifs) a) !! j)
          ↔ ∃ ifi, ifi ∈ ifs ∧ ndpEligible ifi = true ∧ Index ifi = j).
Proof.
  intros Hok. unfold updateInterfaces.
  destruct (scanLoop_complete ifs ∅ ∅ a Hok)
    as (kA & kN & a' & -> & HA & HN & Harp & Hndp); [set_solver..|].
  cbn [arps ndps]. split; intros j.
  - transitivity (j ∈ kA); [|rewrite HA; set_solver].
    split.
    + intros [r [_ Hr]%map_lookup_filter_Some]. done.
    + intros Hj. destruct (Harp j Hj) as [r Hr]. exists r.
      by apply map_lookup_filter_Some.
  - transitivity (j ∈ kN); [|rewrite HN; set_solver].
    split.
    + intros [r [_ Hr]%map_lookup_filter_Some]. done.
    + intros Hj. destruct (Hndp j Hj) as [r Hr]. exists r.
      by apply map_lookup_filter_Some.
Qed.

Lemma updateInterfaces_matches_eligibility_witness :
  (∀ ifi, ifi ∈ [eth0] → scans_well ifi)
  ∧ is_Some (arps (updateInterfaces (Some [eth0]) claimed_both) !! 2).
Proof.
  assert (H : ∀ ifi, ifi ∈ [eth0] → scans_well ifi).
  { intros ifi ->%list_elem_of_singleton. split_and!; [by eexists|done|done]. }
  split; [exact H|].
  apply (proj1 (updateInterfaces_matches_eligibility [eth0] claimed_both H) 2).
  exists eth0. split_and!; [by left|reflexivity|reflexivity].
Defined.

(** ** The scheduler over several turns *)

(** X15 - in every state of [spamLoop], the ticker runs exactly when the map
    has an entry, and its period is then 1100 ms. *)
Theorem ticker_runs_iff_entries s :
  spam_reachable s →
  ticker s = if bool_decide (spamMap s = ∅) then None
             else Some (1100 * Millisecond).
Proof.
  induction 1 as [|s ip now _ IH|s now order _ IH Hperm].
  - reflexivity.
  - cbn [spamInput fst spamMap ticker].
    rewrite (bool_decide_eq_false_2 (<[_ := _]> _ = ∅))
      by apply insert_non_empty.
    destruct (decide (spamMap s = ∅)) as [E|E].
    + rewrite E, map_size_empty. by rewrite bool_decide_eq_true_2.
    + rewrite (bool_decide_eq_false_2 (size _ = 0%nat))
        by (by rewrite map_size_empty_iff).
      rewrite IH. by rewrite bool_decide_eq_false_2.
  - cbn [spamTick fst spamMap ticker].
    destruct (decide ((tickLoop now order (spamMap s)).1 = ∅)) as [E|E].
    + rewrite E, map_size_empty. by rewrite !bool_decide_eq_true_2.
    + rewrite (bool_decide_eq_false_2 (size _ = 0%nat))
        by (by rewrite map_size_empty_iff).
      rewrite (bool_decide_eq_false_2 _ E). rewrite IH.
      rewrite bool_decide_eq_false_2; [done|]. intros Hempty.
      rewrite Hempty, map_to_list_empty in Hperm.
      apply Permutation_nil_r in Hperm. subst order. by apply E.
Qed.

Lemma ticker_runs_iff_entries_witness :
  spam_reachable (spamInput ip_10_0_0_1 7 spamInit).1
  ∧ ticker (spamInput ip_10_0_0_1 7 spamInit).1 = Some 1100000000.
Proof.
  assert (H : spam_reachable (spamInput ip_10_0_0_1 7 spamInit).1)
    by apply spam_input, spam_start.
  split; [exact H|].
  exact (ticker_runs_iff_entries _ H).
Defined.

(** X16 - an address taken from the channel at time t0 is announced by every
    tick up to t0 + 5 s and stays in the map, so that taking it again from
    the channel in that time makes no call of its own; the first tick after
    t0 + 5 s takes it out of the map, and the next time it comes from the
    channel it is announced at once again. *)
Theorem spam_window ip t0 s now order :
  order ≡ₚ map_to_list (spamMap (spamInput ip t0 s).1) →
  (now ≤ t0 + 5 * Second →
     net.ParseIP (net.String ip) ∈ (spamTick now order (spamInput ip t0 s).1).2
     ∧ spamMap (spamTick now order (spamInput ip t0 s).1).1 !! net.String ip
       = Some (t0 + 5 * Second)
     ∧ ∀ t1, (spamInput ip t1 (spamTick now order (spamInput ip t0 s).1).1).2
             = [])
  ∧ (t0 + 5 * Second < now →
     spamMap (spamTick now order (spamInput ip t0 s).1).1 !! net.String ip = None
     ∧ ∀ t1, (spamInput ip t1 (spamTick now order (spamInput ip t0 s).1).1).2
             = [ip]).
Proof.
  intros Hperm.
  set (s1 := (spamInput ip t0 s).1) in *.
  assert (Hs1 : spamMap s1 !! net.String ip = Some (t0 + 5 * Second)).
  { subst s1. cbn [spamInput fst spamMap]. apply lookup_insert_eq. }
  assert (Hnd : NoDup order.*1).
  { rewrite Hperm. apply NoDup_fst_map_to_list. }
  assert (Hin : ∀ k u, (k, u) ∈ order ↔ spamMap s1 !! k = Some u).
  { intros k u. rewrite Hperm. apply elem_of_map_to_list. }
  destruct (tickLoop_spec now order (spamMap s1) Hnd) as [Hm Hcalls].
  unfold spamTick. cbn [fst snd spamMap]. rewrite Hm, Hcalls. split.
  - intros Hlive.
    assert (Hkeep : foldr (λ (kv : string * Z) m,
                             if After now kv.2 then delete kv.1 m else m)
                          (spamMap s1) order !! net.String ip
                    = Some (t0 + 5 * Second)).
    { rewrite (proj2 (tickLoop_lookup now order (spamMap s1) (net.String ip)));
        [done|].
      intros u Hu. apply Hin in Hu. rewrite Hs1 in Hu. injection Hu as <-. lia. }
    split_and!; [|done|].
    + apply list_elem_of_fmap. exists (net.String ip). split; [done|].
      apply list_elem_of_fmap. exists (net.String ip, t0 + 5 * Second).
      split; [done|]. apply list_elem_of_filter. cbn [snd].
      split; [lia|]. by apply Hin.
    + intros t1. unfold spamInput. cbn [snd spamMap].
      rewrite Hkeep. by rewrite bool_decide_eq_true_2.
  - intros Hold.
    assert (Hgone : foldr (λ (kv : string * Z) m,
                             if After now kv.2 then delete kv.1 m else m)
                          (spamMap s1) order !! net.String ip = None).
    { apply tickLoop_lookup. exists (t0 + 5 * Second). split; [|done].
      by apply Hin. }
    split; [done|].
    intros t1. unfold spamInput. cbn [snd spamMap].
    rewrite Hgone. rewrite bool_decide_eq_false_2; [done|]. by intros [? ?].
Qed.

Lemma spam_window_witness :
  [(net.String ip_10_0_0_1, 7 + 5 * Second)]
    ≡ₚ map_to_list (spamMap (spamInput ip_10_0_0_1 7 spamInit).1)
  ∧ 8 ≤ 7 + 5 * Second
  ∧ net.ParseIP (net.String ip_10_0_0_1)
    ∈ (spamTick 8 [(net.String ip_10_0_0_1, 7 + 5 * Second)]
                (spamInput ip_10_0_0_1 7 spamInit).1).2.
Proof.
  assert (H1 : [(net.String ip_10_0_0_1, 7 + 5 * Second)]
                 ≡ₚ map_to_list (spamMap (spamInput ip_10_0_0_1 7 spamInit).1)).
  { cbn [spamInput fst spamMap spamInit].
    rewrite insert_empty, map_to_list_singleton. done. }
  assert (H2 : 8 ≤ 7 + 5 * Second) by (intros E; discriminate E).
  split_and!; [exact H1|exact H2|].
  exact (proj1 (proj1 (spam_window ip_10_0_0_1 7 spamInit 8 _ H1) H2)).
Defined.

(** X17 - the burst of a newly claimed address: when the scheduler is idle
    and takes an address from the channel at time t0, it calls [gratuitous]
    at once and leaves one entry and a running ticker; a tick at
    t0 + k * 1100 ms calls [gratuitous] once more and changes nothing for
    k from 1 to 4, and for k from 5 on it makes no call, empties the map and
    stops the ticker. *)
Theorem spam_burst ip t0 k :
  (spamInput ip t0 spamInit).2 = [ip]
  ∧ (1 ≤ k ≤ 4 →
     spamTick (t0 + k * (1100 * Millisecond))
              [(net.String ip, t0 + 5 * Second)]
              (spamInput ip t0 spamInit).1
     = ((spamInput ip t0 spamInit).1, [net.ParseIP (net.String ip)]))
  ∧ (5 ≤ k →
     spamTick (t0 + k * (1100 * Millisecond))
              [(net.String ip, t0 + 5 * Second)]
              (spamInput ip t0 spamInit).1
     = (spamInit, [])).
Proof.
  split_and!; [reflexivity| |].
  - intros Hk. unfold spamTick, spamInput, spamInit.
    cbn [fst snd spamMap ticker tickLoop]. unfold After.
    destruct (Z.ltb_spec (t0 + 5 * Second) (t0 + k * (1100 * Millisecond)))
      as [Hlt|_]; [unfold Second, Millisecond in Hlt; lia|].
    cbn [fst snd]. rewrite insert_empty, map_size_singleton.
    rewrite map_size_empty. done.
  - intros Hk. unfold spamTick, spamInput, spamInit.
    cbn [fst snd spamMap ticker tickLoop]. unfold After.
    destruct (Z.ltb_spec (t0 + 5 * Second) (t0 + k * (1100 * Millisecond)))
      as [_|Hge]; [|unfold Second, Millisecond in Hge; lia].
    cbn [fst snd]. rewrite insert_empty, delete_singleton_eq, map_size_empty.
    done.
Qed.

Lemma spam_burst_witness :
  1 ≤ 4 ≤ 4
  ∧ spamTick (0 + 4 * (1100 * Millisecond))
             [(net.String ip_10_0_0_1, 0 + 5 * Second)]
             (spamInput ip_10_0_0_1 0 spamInit).1
    = ((spamInput ip_10_0_0_1 0 spamInit).1,
       [net.ParseIP (net.String ip_10_0_0_1)]).
Proof.
  assert (H : 1 ≤ 4 ≤ 4) by (split; intros E; discriminate E).
  split; [exact H|].
  exact (proj1 (proj2 (spam_burst ip_10_0_0_1 0 4)) H).
Defined.

(** ** A scan that finds nothing new *)

Lemma scanInterface_stable ifi keepARP keepNDP a :
  scans_well ifi →
  (arpEligible ifi = true → is_Some (arps a !! Index ifi)) →
  (ndpEligible ifi = true → is_Some (ndps a !! Index ifi)) →
  (∀ j, j ∈ keepARP → is_Some (arps a !! j)) →
  (∀ j, j ∈ keepNDP → is_Some (ndps a !! j)) →
  ∃ keepARP' keepNDP',
    scanInterface ifi keepARP keepNDP a = Continue keepARP' keepNDP' a.
Proof.
  intros Hok HA HN HkA HkN.
  destruct (scanInterface_complete ifi keepARP keepNDP a Hok HkA HkN)
    as (kA & kN & a' & E & HkA' & HkN' & _).
  exists kA, kN. rewrite E. f_equal.
  destruct Hok as ([addrs Haddrs] & HarpOK & HndpOK).
  revert E. unfold scanInterface. rewrite Haddrs, HarpOK, HndpOK.
  destruct (Z.land (Flags ifi) FlagUp =? 0); [by intros [= _ _ <-]|].
  destruct (hasMaster ifi); [by intros [= _ _ <-]|].
  destruct (match sysFlags ifi with Some _ => _ | None => _ end);
    [by intros [= _ _ <-]|].
  cbn [negb]. rewrite !andb_false_r. cbv zeta.
  intros [= HeA HeN <-].
  assert (E1 : bool_decide (Index ifi ∈ (scanAddrs ifi addrs keepARP keepNDP).1)
               && bool_decide (arps a !! Index ifi = None) = false).
  { apply andb_false_iff.
    destruct (decide (Index ifi ∈ (scanAddrs ifi addrs keepARP keepNDP).1))
      as [Hin|Hout]; [right|left; by apply bool_decide_eq_false].
    apply bool_decide_eq_false. rewrite HeA in Hin.
    apply HkA' in Hin as [Hin|[Hel _]]; apply not_eq_None_Some; auto. }
  rewrite E1.
  assert (E2 : bool_decide (Index ifi ∈ (scanAddrs ifi addrs keepARP keepNDP).2)
               && bool_decide (ndps a !! Index ifi = None) = false).
  { apply andb_false_iff.
    destruct (decide (Index ifi ∈ (scanAddrs ifi addrs keepARP keepNDP).2))
      as [Hin|Hout]; [right|left; by apply bool_decide_eq_false].
    apply bool_decide_eq_false. rewrite HeN in Hin.
    apply HkN' in Hin as [Hin|[Hel _]]; apply not_eq_None_Some; auto. }
  by rewrite E2.
Qed.

Lemma scanLoop_stable ifs keepARP keepNDP a :
  (∀ ifi, ifi ∈ ifs → scans_well ifi) →
  (∀ ifi, ifi ∈ ifs → arpEligible ifi = true → is_Some (arps a !! Index ifi)) →
  (∀ ifi, ifi ∈ ifs → ndpEligible ifi = true → is_Some (ndps a !! Index ifi)) →
  (∀ j, j ∈ keepARP → is_Some (arps a !! j)) →
  (∀ j, j ∈ keepNDP → is_Some (ndps a !! j)) →
  ∃ keepARP' keepNDP',
    scanLoop ifs keepARP keepNDP a = Continue keepARP' keepNDP' a.
Proof.
  revert keepARP keepNDP.
  induction ifs as [|ifi ifs IH]; intros keepARP keepNDP Hok HA HN HkA HkN.
  - by exists keepARP, keepNDP.
  - destruct (scanInterface_stable ifi keepARP keepNDP a) as (kA & kN & E);
      [apply Hok; by left|apply HA; by left|apply HN; by left|done|done|].
    destruct (scanInterface_complete ifi keepARP keepNDP a)
      as (kA' & kN' & a' & E' & HkA' & HkN' & _);
      [apply Hok; by left|done|done|].
    rewrite E in E'. injection E' as <- <- <-.
    cbn [scanLoop]. rewrite E. apply IH.
    + intros ifj Hj. apply Hok. by right.
    + intros ifj Hj. apply HA. by right.
    + intros ifj Hj. apply HN. by right.
    + intros j [Hj|[Hel <-]]%HkA'; [by apply HkA|]. apply HA; [by left|done].
    + intros j [Hj|[Hel <-]]%HkN'; [by apply HkN|]. apply HN; [by left|done].
Qed.

(** X14 - a scan in which nothing fails and that finds the interfaces as the
    responders have them (a responder of each kind at an index exactly when
    an interface with that index is eligible for it) changes nothing: no
    responder is created again, closed or removed, and none loses the calls
    made on it. *)
Theorem updateInterfaces_stable ifs a :
  (∀ ifi, ifi ∈ ifs → scans_well ifi) →
  (∀ j, is_Some (arps a !! j)
        ↔ ∃ ifi, ifi ∈ ifs ∧ arpEligible ifi = true ∧ Index ifi = j) →
  (∀ j, is_Some (ndps a !! j)
        ↔ ∃ ifi, ifi ∈ ifs ∧ ndpEligible ifi = true ∧ Index ifi = j) →
  updateInterfaces (Some ifs) a = a.
Proof.
  intros Hok HA HN. unfold updateInterfaces.
  destruct (scanLoop_stable ifs ∅ ∅ a Hok) as (kA & kN & E).
  - intros ifi Hin Hel. apply HA. by exists ifi.
  - intros ifi Hin Hel. apply HN. by exists ifi.
  - intros j Hj. by apply not_elem_of_empty in Hj.
  - intros j Hj. by apply not_elem_of_empty in Hj.
  - destruct (scanLoop_complete ifs ∅ ∅ a Hok)
      as (kA' & kN' & a' & E' & HkA & HkN & _);
      [intros j Hj; by apply not_elem_of_empty in Hj..|].
    rewrite E in E' |- *. injection E' as <- <- <-.
    rewrite !map_filter_id; [by destruct a| |].
    + intros j r Hr. cbn [fst]. apply HkN. right. apply HN. by exists r.
    + intros j r Hr. cbn [fst]. apply HkA. right. apply HA. by exists r.
Qed.

Lemma updateInterfaces_stable_witness :
  (∀ ifi, ifi ∈ [eth0] → scans_well ifi)
  ∧ updateInterfaces (Some [eth0]) claimed_both = claimed_both.
Proof.
  assert (H : ∀ ifi, ifi ∈ [eth0] → scans_well ifi).
  { intros ifi ->%list_elem_of_singleton. split_and!; [by eexists|done|done]. }
  split; [exact H|].
  apply (updateInterfaces_stable [eth0] claimed_both H).
  - intros j.
    change (arps claimed_both) with (<[2 := mkArp "eth0" []]> (∅ : gmap Z arpResponder)).
    split.
    + intros [r [[<- _]|[_ Hr]]%lookup_insert_Some];
        [|by rewrite lookup_empty in Hr].
      exists eth0. split_and!; [by left|reflexivity|reflexivity].
    + intros (ifi & ->%list_elem_of_singleton & _ & <-).
      rewrite lookup_insert_eq. by eexists.
  - intros j.
    change (ndps claimed_both)
      with (<[2 := mkNdp "eth0" [NdpWatch ip_10_0_0_1; NdpWatch ip_2001_db8__1]]>
              (∅ : gmap Z ndpResponder)).
    split.
    + intros [r [[<- _]|[_ Hr]]%lookup_insert_Some];
        [|by rewrite lookup_empty in Hr].
      exists eth0. split_and!; [by left|reflexivity|reflexivity].
    + intros (ifi & ->%list_elem_of_singleton & _ & <-).
      rewrite lookup_insert_eq. by eexists.
Defined.

(** ** The address a tick announces *)

Lemma at_byte (z : Z) (b : byte) :
  Z.of_N (Byte.to_N b) = z → Byte.of_N (Z.to_N z) = Some b.
Proof. intros <-. rewrite N2Z.id. apply Byte.of_to_N. Qed.

(** The addresses that [To4] takes for IPv4 addresses. *)
Lemma To4_Some ip a b c d :
  net.To4 ip = Some [a; b; c; d] →
  ip = [a; b; c; d] ∨ ip = net.IPv4 a b c d.
Proof.
  unfold net.To4. case_bool_decide as H4; [intros [= ->]; by left|].
  destruct (bool_decide (length ip = net.IPv6len)) eqn:H16; [|done].
  apply bool_decide_eq_true in H16. unfold net.IPv6len in H16.
  do 16 (destruct ip as [|? ip]; [discriminate H16|]).
  destruct ip; [|discriminate H16]. cbn [andb take net.isZeros forallb].
  unfold net.at_. cbn [nth drop].
  intros H. right.
  match type of H with
  | (if ?x then _ else _) = _ => destruct x eqn:E; [|discriminate H]
  end.
  injection H as -> -> -> ->.
  repeat rewrite andb_true_iff in E. destruct_and!.
  repeat match goal with
         | E : Byte.eqb _ _ = true |- _ => apply Byte.byte_dec_bl in E; subst
         | E : (Z.of_N (Byte.to_N ?x) =? 255) = true |- _ =>
             apply Z.eqb_eq, at_byte in E; injection E as <-
         end.
  reflexivity.
Qed.

Lemma String_IPv4 a b c d :
  net.String (net.IPv4 a b c d) = net.String [a; b; c; d].
Proof. reflexivity. Qed.

Lemma firstSep_ubtoa b r :
  net.firstSep (net.ubtoa (Z.of_N (Byte.to_N b)) +:+ String "." r) = Some "."%char.
Proof. destruct b; reflexivity. Qed.

Lemma parseIPv4Loop_first fields b r p :
  net.parseIPv4Loop (S fields) 0
    (net.ubtoa (Z.of_N (Byte.to_N b)) +:+ String "." r) p
  = net.parseIPv4Loop fields 1 (String "." r) (p ++ [b]).
Proof. destruct b; reflexivity. Qed.

Lemma parseIPv4Loop_next fields i b r p :
  net.parseIPv4Loop (S fields) (S i)
    (String "." (net.ubtoa (Z.of_N (Byte.to_N b)) +:+ String "." r)) p
  = net.parseIPv4Loop fields (S (S i)) (String "." r) (p ++ [b]).
Proof. destruct b; reflexivity. Qed.

Lemma parseIPv4Loop_last i b p :
  net.parseIPv4Loop 1 (S i) (String "." (net.ubtoa (Z.of_N (Byte.to_N b)))) p
  = Some (p ++ [b], EmptyString).
Proof. destruct b; reflexivity. Qed.

Lemma ParseIP_String_4 a b c d :
  net.ParseIP (net.String [a; b; c; d]) = net.IPv4 a b c d.
Proof.
  unfold net.String. cbn [length bool_decide decide_rel]. 
  change (net.To4 [a; b; c; d]) with (Some [a; b; c; d]).
  rewrite bool_decide_eq_false_2 by done.
  unfold net.at_. cbn [nth].
  repeat match goal with
         | |- context ["." +:+ ?s] => change ("." +:+ s) with (String "." s)
         end.
  unfold net.ParseIP. rewrite firstSep_ubtoa.
  unfold net.parseIPv4. rewrite parseIPv4Loop_first.
  rewrite !parseIPv4Loop_next, parseIPv4Loop_last. reflexivity.
Qed.

(** X18 - for an IPv4 address, in its 4-byte or its 16-byte form, the key
    under which the scheduler keeps it parses back to the 16-byte form of the
    same address: the address a tick hands to [gratuitous] is [Equal] to the
    one that came from the channel, has the same count, and is announced by
    the ARP responders and by no NDP responder. *)
Theorem tick_address_IPv4 ip a b c d :
  net.To4 ip = Some [a; b; c; d] →
  net.ParseIP (net.String ip) = net.IPv4 a b c d
  ∧ net.Equal (net.ParseIP (net.String ip)) ip = true
  ∧ net.String (net.ParseIP (net.String ip)) = net.String ip
  ∧ ∀ st, 0 < refcnt st (net.String ip) →
      (∀ i, arps (gratuitous (net.ParseIP (net.String ip)) st) !! i
            = arpDo (ArpGratuitous (net.IPv4 a b c d)) <$> arps st !! i)
      ∧ ndps (gratuitous (net.ParseIP (net.String ip)) st) = ndps st.
Proof.
  intros H4.
  assert (Hstr : net.String ip = net.String [a; b; c; d]).
  { destruct (To4_Some ip a b c d H4) as [->| ->]; [done|apply String_IPv4]. }
  assert (Hparse : net.ParseIP (net.String ip) = net.IPv4 a b c d).
  { rewrite Hstr. apply ParseIP_String_4. }
  rewrite Hparse. split_and!; [done| | |].
  - destruct (To4_Some ip a b c d H4) as [->| ->]; [|apply Equal_refl].
    unfold net.Equal, net.IPv4. cbn [length app net.v4InV6Prefix].
    rewrite bool_decide_eq_false_2 by done.
    rewrite (bool_decide_eq_false_2 (16%nat = net.IPv4len)) by done.
    cbn [andb]. rewrite !bool_decide_eq_true_2 by done. done.
  - by rewrite String_IPv4.
  - intros st Hpos. unfold gratuitous. rewrite String_IPv4, <- Hstr.
    destruct (Z.leb_spec (refcnt st (net.String ip)) 0) as [Hle|_]; [lia|].
    change (net.To4 (net.IPv4 a b c d)) with (Some [a; b; c; d]).
    cbn [arps ndps]. split; [|done]. intros i. apply lookup_fmap.
Qed.

Lemma tick_address_IPv4_witness :
  net.To4 ip_10_0_0_1 = Some [x0a; x00; x00; x01]
  ∧ net.ParseIP (net.String ip_10_0_0_1) = net.IPv4 x0a x00 x00 x01.
Proof.
  assert (H : net.To4 ip_10_0_0_1 = Some [x0a; x00; x00; x01]) by reflexivity.
  split; [exact H|].
  exact (proj1 (tick_address_IPv4 ip_10_0_0_1 x0a x00 x00 x01 H)).
Defined.

(** ** The facade and the set of responders *)

Lemma deleteLoop_ndps_dom l a : dom (ndps (deleteLoop l a)) = dom (ndps a).
Proof.
  revert a. induction l as [|ip l IH]; intros a; [done|].
  rewrite deleteLoop_cons. destruct (_ >? 0); [done|].
  rewrite IH. cbn [ndps]. apply dom_fmap_L.
Qed.

(** X19 - the facade leaves the responders in place: no sequence of
    [SetBalancer] and [DeleteBalancer] calls creates or removes a responder,
    and none makes a call on an ARP responder. *)
Theorem run_keeps_responders ops a :
  arps (run ops a) = arps a ∧ dom (ndps (run ops a)) = dom (ndps a).
Proof.
  revert a. induction ops as [|o ops IH]; intros a; [done|].
  cbn [run foldl]. fold (run ops (run_op o a)).
  destruct (IH (run_op o a)) as [-> ->].
  destruct o as [name ip|name]; cbn [run_op].
  - cbn [SetBalancer arps ndps]. split; [done|].
    destruct (_ >? 1); [done|apply dom_fmap_L].
  - unfold DeleteBalancer. destruct (ips a !! name) as [l|]; [|done].
    by rewrite deleteLoop_arps, deleteLoop_ndps_dom.
Qed.
